(** * YOLOv9 + DeepSORT video pipeline: a shallow embedding

    Source: [YOLOv9/Yolov9_DeepSort_MOT16.py].

    The file embeds the three functions of the script that carry logic,
    [resize_and_pad], [inference] and [run], and states the properties the
    design document gives for them.

    Conventions.
    - A frame is a numpy array of dtype uint8 and of three axes
      (rows, columns, channels), as [cv2.VideoCapture.read] delivers it.
    - Python integers are [Z]; [//] is floor division, which is [Z.div].
    - Float scalars that the script only forwards, truncates or compares
      (box corners, confidences, clock readings) are exact rationals [Q].
    - Python exceptions are values of [exn]; a computation that may raise
      returns a [result].
    - Arrays that are shared and mutated live in a store indexed by
      references, so that aliasing is visible. *)

From Stdlib Require Import ZArith QArith Qround Qminmax Lia Lqa.
From stdpp Require Import gmap strings list pretty sorting.

Open Scope Z_scope.
Open Scope nat_scope.

(** ** Exceptions and results *)

Inductive exn : Type :=
| ZeroDivisionError
| ValueError
| KeyError
| ExternalError (name : string).

Inductive result (A : Type) : Type :=
| Ok (a : A)
| Raise (e : exn).
Arguments Ok {A} a.
Arguments Raise {A} e.

Definition is_ok {A} (r : result A) : bool :=
  match r with Ok _ => true | Raise _ => false end.

(** ** Arrays of dtype uint8 with three axes *)

Module Np.

Definition uint8 : Type := Byte.byte.
Definition zero : uint8 := Byte.x00.

Record ndarray : Type := mk_ndarray {
  rows : nat;
  cols : nat;
  chans : nat;
  data : list (list (list uint8))
}.

(** The nested data has the extents the shape announces. *)
Definition well_formed (a : ndarray) : bool :=
  (length (data a) =? rows a) &&
  forallb (fun row =>
             (length row =? cols a) &&
             forallb (fun px => length px =? chans a) row)
          (data a).

(** [a[i, j, k]], [None] outside the array. *)
Definition getpx (a : ndarray) (i j k : nat) : option uint8 :=
  match data a !! i with
  | Some row =>
      match row !! j with
      | Some px => px !! k
      | None => None
      end
  | None => None
  end.

(** The array of extents [(h, w, c)] that is zero everywhere. *)
Definition zero_array (h w c : nat) : ndarray :=
  {| rows := h; cols := w; chans := c;
     data := replicate h (replicate w (replicate c zero)) |}.

(** The largest [npy_intp] of a 64-bit build. *)
Definition npy_intp_max : Z := (2 ^ 63 - 1)%Z.

(** The number of bytes numpy computes for a shape when it creates an
    array of dtype uint8: the item size 1 times the extents, an extent of
    0 being skipped. *)
Definition nbytes (dims : list Z) : Z :=
  foldr (fun d acc => if (d =? 0)%Z then acc else (d * acc)%Z) 1%Z dims.

(** The shape is one numpy creates an array for. *)
Definition within_numpy_limit (h w c : Z) : Prop :=
  (nbytes [h; w; c] <= npy_intp_max)%Z.

(** [np.zeros((h, w, c), dtype=np.uint8)]: ValueError for a negative
    extent ("negative dimensions are not allowed") and for a shape whose
    number of bytes exceeds [npy_intp_max] ("array is too big", "Maximum
    allowed dimension exceeded"). Running out of memory below that limit
    depends on the machine and is not modelled. *)
Definition zeros (h w c : Z) : result ndarray :=
  if ((h <? 0) || (w <? 0) || (c <? 0))%Z then Raise ValueError
  else if (npy_intp_max <? nbytes [h; w; c])%Z then Raise ValueError
  else Ok (zero_array (Z.to_nat h) (Z.to_nat w) (Z.to_nat c)).

(** numpy's broadcasting rule for one axis: the source extent equals the
    target extent, or it is 1. *)
Definition bcast_ok (s t : nat) : bool := (s =? t) || (s =? 1).

(** Stretch an axis of extent 1 to extent [n]; any other axis is kept. *)
Definition stretch {A} (n : nat) (l : list A) : list A :=
  match l with
  | [x] => replicate n x
  | _ => l
  end.

Definition broadcast_to (src : ndarray) (th tw tc : nat)
  : list (list (list uint8)) :=
  stretch th (map (fun row => stretch tw (map (stretch tc) row)) (data src)).

(** Overwrite the leading entries of [dst] with those of [src], combining
    entry by entry with [f]; what [dst] has beyond [src] stays. *)
Fixpoint overlay {A} (f : A -> A -> A) (src dst : list A) : list A :=
  match src, dst with
  | s :: src', d :: dst' => f s d :: overlay f src' dst'
  | _, _ => dst
  end.

(** [dst[:h, :w, :] = src], on a copy of [dst]. The slice is clipped to
    the extents of [dst]; [src] is broadcast to the slice or the
    assignment raises ValueError. *)
Definition setitem_block (dst : ndarray) (h w : nat) (src : ndarray)
  : result ndarray :=
  let th := Nat.min h (rows dst) in
  let tw := Nat.min w (cols dst) in
  if bcast_ok (rows src) th && bcast_ok (cols src) tw
     && bcast_ok (chans src) (chans dst)
  then Ok {| rows := rows dst; cols := cols dst; chans := chans dst;
             data := overlay (overlay (fun s _ => s))
                             (broadcast_to src th tw (chans dst))
                             (data dst) |}
  else Raise ValueError.

End Np.

Import Np.

(** ** [resize_and_pad] (lines 17-24) *)

(** [(n + stride - 1) // stride * stride] *)
Definition round_up (n : nat) (stride : Z) : Z :=
  ((Z.of_nat n + stride - 1) / stride * stride)%Z.

Definition resize_and_pad (image : ndarray) (stride : Z) : result ndarray :=
  let h := rows image in
  let w := cols image in
  if (stride =? 0)%Z then Raise ZeroDivisionError else
  let new_h := round_up h stride in
  let new_w := round_up w stride in
  match zeros new_h new_w 3 with
  | Raise e => Raise e
  | Ok padded_image => setitem_block padded_image h w image
  end.

(** [m] is the smallest multiple of [s] that is at least [n]. *)
Definition smallest_multiple_geq (s : Z) (n : nat) (m : nat) : Prop :=
  (s | Z.of_nat m)%Z /\ n <= m /\
  forall m' : Z, (s | m')%Z -> (Z.of_nat n <= m')%Z -> (Z.of_nat m <= m')%Z.

(** The array [resize_and_pad] is to build for the frame is one numpy
    creates: its number of bytes does not exceed [npy_intp_max]. *)
Definition padded_within_limit (image : ndarray) (stride : Z) : Prop :=
  within_numpy_limit (round_up (rows image) stride)
                     (round_up (cols image) stride) 3.

(** ** Rows of the detection tensor and what the tracker is handed
       (lines 51-59) *)

(** One row of [pred[0]]: corner coordinates, confidence, class index,
    all float scalars. *)
Record det_row : Type := mk_det_row {
  row_x1 : Q; row_y1 : Q; row_x2 : Q; row_y2 : Q;
  row_conf : Q;
  row_cls : Q
}.

(** [int(x)] on a float: truncation toward zero. *)
Definition py_int (q : Q) : Z := Z.quot (Qnum q) (Zpos (Qden q)).

(** [torch.round]: to the nearest integer, halves to the even neighbour. *)
Definition torch_round (q : Q) : Q :=
  let f := Qfloor q in
  let twice := Qfloor (2 * q) in
  inject_Z
    (if (twice =? 2 * f)%Z then
       (* fractional part below one half, or q is the integer f *)
       f
     else if Qeq_bool (2 * q) (inject_Z twice) && Z.even f then
       (* exactly f + 1/2 with f even *)
       f
     else (f + 1)%Z).

(** [model.names]: a dict from class index to class name, in insertion
    order. *)
Definition names_dict : Type := list (Z * string).

(** [names[k]] *)
Definition dict_get (names : names_dict) (k : Z) : result string :=
  match list_find (fun kv => fst kv = k) names with
  | Some (_, (_, v)) => Ok v
  | None => Raise KeyError
  end.

(** [next((k for k, v in names.items() if v == cls), 0)] *)
Definition reverse_lookup (names : names_dict) (cls : string) : Z :=
  match list_find (fun kv => snd kv = cls) names with
  | Some (_, (k, _)) => k
  | None => 0%Z
  end.

(** The tuple appended to [detections]:
    [([x1, y1, x2 - x1, y2 - y1], conf.item(), cls_name)]. *)
Definition detection : Type := list Z * Q * string.

Definition detection_of_row (names : names_dict) (r : det_row)
  : result detection :=
  let x1 := py_int (row_x1 r) in
  let y1 := py_int (row_y1 r) in
  let x2 := py_int (row_x2 r) in
  let y2 := py_int (row_y2 r) in
  match dict_get names (py_int (row_cls r)) with
  | Ok cls_name => Ok ([x1; y1; x2 - x1; y2 - y1]%Z, row_conf r, cls_name)
  | Raise e => Raise e
  end.

(** The body of [for ... in reversed(det)], threaded over the rows that
    are left, with the list built so far. *)
Fixpoint append_detections (names : names_dict) (rows : list det_row)
    (detections : list detection) : result (list detection) :=
  match rows with
  | [] => Ok detections
  | r :: rows' =>
      match detection_of_row names r with
      | Ok d => append_detections names rows' (detections ++ [d])
      | Raise e => Raise e
      end
  end.

Definition collect_detections (names : names_dict) (det : list det_row)
  : result (list detection) :=
  append_detections names (reverse det) [].

(** [d] is the tuple for the row [r] whose corners are integers:
    [x, y, width, height] from the corners, the confidence of the row and
    the name of its class. *)
Definition is_tracker_tuple (names : names_dict) (r : det_row)
    (d : detection) : Prop :=
  exists (x1 y1 x2 y2 : Z) (cls_name : string),
    row_x1 r == inject_Z x1 /\ row_y1 r == inject_Z y1 /\
    row_x2 r == inject_Z x2 /\ row_y2 r == inject_Z y2 /\
    dict_get names (py_int (row_cls r)) = Ok cls_name /\
    d = ([x1; y1; x2 - x1; y2 - y1]%Z, row_conf r, cls_name).

(** ** Tracks, as the tracker returns them *)

Inductive track_state : Type := Tentative | Confirmed | Deleted.

Global Instance track_state_eq_dec : EqDecision track_state.
Proof. solve_decision. Defined.

Record Track : Type := mk_Track {
  track_id : nat;
  state : track_state;
  hits : nat;
  time_since_update : nat;
  det_class : string;
  ltrb : list Q
}.

Definition is_confirmed (t : Track) : bool :=
  bool_decide (state t = Confirmed).

(** [track.to_ltrb()] *)
Definition to_ltrb (t : Track) : list Q := ltrb t.

(** ** The world [inference] and [run] act on *)

(** References to arrays. *)
Definition loc : Type := nat.

(** Calls into the libraries that are observable from outside. *)
Inductive event : Type :=
| EvForward                                        (* model(img) *)
| EvUpdateTracks (detections : list detection) (frame : ndarray)
| EvBoxLabel (bbox : list Q) (label : string) (color : Z * Z * Z)
| EvPutText (text : string)
| EvWrite (frame : ndarray)                        (* out.write *)
| EvImshow (frame : ndarray)
| EvPrint (text : string).

Section World.

(** State of the [DeepSort] object. *)
Context {TrackerState : Type}.

Record World : Type := mk_World {
  heap : gmap loc ndarray;       (* the arrays, by reference *)
  deepsort : TrackerState;
  trace : list event;
  clock : nat -> Q;              (* what [time.time()] will return *)
  ticks : nat                    (* how often it was read *)
}.

Definition set_heap (h : gmap loc ndarray) (w : World) : World :=
  {| heap := h; deepsort := deepsort w; trace := trace w;
     clock := clock w; ticks := ticks w |}.
Definition set_deepsort (s : TrackerState) (w : World) : World :=
  {| heap := heap w; deepsort := s; trace := trace w;
     clock := clock w; ticks := ticks w |}.
Definition set_trace (t : list event) (w : World) : World :=
  {| heap := heap w; deepsort := deepsort w; trace := t;
     clock := clock w; ticks := ticks w |}.
Definition set_ticks (n : nat) (w : World) : World :=
  {| heap := heap w; deepsort := deepsort w; trace := trace w;
     clock := clock w; ticks := n |}.

(** State and exceptions: a raised exception keeps the world as it was
    when it was raised. *)
Definition M (A : Type) : Type := World -> result A * World.

Definition ret {A} (a : A) : M A := fun w => (Ok a, w).

Definition bind {A B} (m : M A) (k : A -> M B) : M B :=
  fun w =>
    match m w with
    | (Ok a, w') => k a w'
    | (Raise e, w') => (Raise e, w')
    end.

Definition raise {A} (e : exn) : M A := fun w => (Raise e, w).

Definition lift {A} (r : result A) : M A := fun w => (r, w).

Definition emit (ev : event) : M unit :=
  fun w => (Ok tt, set_trace (trace w ++ [ev]) w).

(** A new array object. *)
Definition alloc (a : ndarray) : M loc :=
  fun w =>
    let l := fresh (dom (heap w)) in
    (Ok l, set_heap (<[l := a]> (heap w)) w).

Definition load (l : loc) : M ndarray :=
  fun w =>
    match heap w !! l with
    | Some a => (Ok a, w)
    | None => (Raise (ExternalError "unbound reference"), w)
    end.

Definition store (l : loc) (a : ndarray) : M unit :=
  fun w => (Ok tt, set_heap (<[l := a]> (heap w)) w).

(** [time.time()] *)
Definition time_time : M Q :=
  fun w => (Ok (clock w (ticks w)), set_ticks (S (ticks w)) w).

(** [x[0]] on a list *)
Definition index0 {A} (l : list A) : M A :=
  match l with
  | x :: _ => ret x
  | [] => raise (ExternalError "IndexError")
  end.

(** [w'] differs from [w] at most in the array at [l] and in the trace. *)
Definition touches_only (l : loc) (w w' : World) : Prop :=
  deepsort w' = deepsort w /\ clock w' = clock w /\ ticks w' = ticks w /\
  dom (heap w') = dom (heap w) /\
  forall l', l' <> l -> heap w' !! l' = heap w !! l'.

(** Running [m] leaves the array [a] at [l] in place, and every value it
    returns satisfies [post]. *)
Definition keeps (l : loc) (a : ndarray) {A} (m : M A) (post : A -> Prop)
  : Prop :=
  forall w, heap w !! l = Some a ->
    heap (snd (m w)) !! l = Some a /\
    forall v, fst (m w) = Ok v -> post v.

End World.

Arguments World : clear implicits.
Arguments M : clear implicits.

Notation "'let*' x ':=' m 'in' k" := (bind m (fun x => k))
  (at level 10, x name, m at level 99, k at level 200,
   format "'[v' 'let*'  x  :=  m  'in' '/' k ']'").
Notation "m ;; k" := (bind m (fun _ => k))
  (at level 100, k at level 200, right associativity).

Section Pipeline.

Context {TrackerState : Type}.
Local Abbreviation M := (M TrackerState).

(** *** The libraries the script calls *)

(** torch tensors and raw predictions are opaque to the script. *)
Context {Tensor RawPred : Type}.

(** The [model] object of [DetectMultiBackend]. *)
Record Model : Type := mk_Model {
  stride : Z;
  fp16 : bool;
  forward : list Tensor -> result (list RawPred)
}.

(** The [DeepSort] object: [update_tracks(detections, frame=...)] is a
    transition of its state that returns the track list. *)
Variable update_tracks :
  TrackerState -> list detection -> ndarray -> TrackerState * list Track.

(** [torch.from_numpy(img).to(device).float() / 255.0] and [.half()] *)
Variable to_float_div255 : list (list (list uint8)) -> Tensor.
Variable half : Tensor -> Tensor.

(** [utils.general]: [non_max_suppression(pred, conf_thres, iou_thres,
    max_det)] returns one list of rows per image of the batch;
    [scale_boxes(img1_shape, boxes, img0_shape)] acts row by row. *)
Variable non_max_suppression : RawPred -> Q -> Q -> Z -> list (list det_row).
Variable scale_boxes :
  nat * nat -> Q * Q * Q * Q -> nat * nat * nat -> Q * Q * Q * Q.

(** [utils.plots]: the palette and what [Annotator.box_label] draws;
    [cv2.putText]; the format [{fps:.2f}]. *)
Variable colors : Z -> bool -> Z * Z * Z.
Variable draw_box_label :
  ndarray -> list Q -> string -> Z * Z * Z -> Z -> ndarray.
Variable draw_text : ndarray -> string -> ndarray.
Variable format_2f : Q -> string.

(** *** [inference] (lines 26-88) *)

(** [padded_image[..., ::-1].transpose(2, 0, 1)]: channels reversed, then
    channel-major. *)
Definition channel_plane (a : ndarray) (k : nat) : list (list uint8) :=
  map (fun row => map (fun px => default zero (px !! k)) row) (data a).

Definition bgr_to_rgb_chw (a : ndarray) : list (list (list uint8)) :=
  map (channel_plane a) (reverse (seq 0 (chans a))).

(** [det[:, :4] = scale_boxes(img.shape[2:], det[:, :4], im0.shape).round()] *)
Definition rescale_row (img_hw : nat * nat) (im0_shape : nat * nat * nat)
    (r : det_row) : det_row :=
  let '(a, b, c, d) :=
    scale_boxes img_hw (row_x1 r, row_y1 r, row_x2 r, row_y2 r) im0_shape in
  {| row_x1 := torch_round a; row_y1 := torch_round b;
     row_x2 := torch_round c; row_y2 := torch_round d;
     row_conf := row_conf r; row_cls := row_cls r |}.

(** [annotator.box_label(bbox, label, color=...)] draws on the array the
    annotator was built on. *)
Definition box_label (im : loc) (line_width : Z) (bbox : list Q)
    (label : string) (color : Z * Z * Z) : M unit :=
  let* a := load im in
  store im (draw_box_label a bbox label color line_width) ;;
  emit (EvBoxLabel bbox label color).

(** The label [f'ID: {track_id} | {track_cls}'] *)
Definition track_label (t : Track) : string :=
  "ID: " +:+ pretty (track_id t) +:+ " | " +:+ det_class t.

(** The body of [for track in tracks] (lines 65-82). *)
Definition annotate_track (names : names_dict) (im0 : loc) (line_width : Z)
    (track : Track) : M unit :=
  if negb (is_confirmed track) || (0 <? time_since_update track)
  then ret tt                                      (* continue *)
  else
    let track_cls := det_class track in
    let cls_index := reverse_lookup names track_cls in
    let bbox := to_ltrb track in
    let cls_color := colors cls_index true in
    box_label im0 line_width bbox (track_label track) cls_color.

Fixpoint annotate_tracks (names : names_dict) (im0 : loc) (line_width : Z)
    (tracks : list Track) : M unit :=
  match tracks with
  | [] => ret tt
  | track :: rest =>
      annotate_track names im0 line_width track ;;
      annotate_tracks names im0 line_width rest
  end.

(** The call of [box_label] that a track is drawn with. *)
Definition box_label_call (names : names_dict) (t : Track) : event :=
  EvBoxLabel (to_ltrb t) (track_label t)
             (colors (reverse_lookup names (det_class t)) true).

(** What [box_label] makes of the array for one track, and what the
    annotation loop makes of it for a track list. *)
Definition draw_track (names : names_dict) (line_width : Z) (im : ndarray)
    (t : Track) : ndarray :=
  draw_box_label im (to_ltrb t) (track_label t)
                 (colors (reverse_lookup names (det_class t)) true) line_width.

Definition annotated (names : names_dict) (line_width : Z) (im : ndarray)
    (tracks : list Track) : ndarray :=
  foldl (draw_track names line_width) im
        (filter (fun t => state t = Confirmed /\ time_since_update t = 0)
                tracks).

(** [deepsort.update_tracks(detections, frame=im0)]. The call is taken to
    return: an exception raised inside the tracker is not modelled. *)
Definition call_update_tracks (detections : list detection) (im0 : loc)
  : M (list Track) :=
  let* frame := load im0 in
  emit (EvUpdateTracks detections frame) ;;
  fun w =>
    let '(s, tracks) := update_tracks (deepsort w) detections frame in
    (Ok tracks, set_deepsort s w).

Definition inference (image : loc) (model : Model) (names : names_dict)
    (line_thickness : Z) : M loc :=
  let* start_time := time_time in
  (* resize and pad, then the tensor *)
  let* image_arr := load image in
  let* padded_image := lift (resize_and_pad image_arr (stride model)) in
  let img := bgr_to_rgb_chw padded_image in
  let img := to_float_div255 img in
  let img := if fp16 model then half img else img in
  let img := [img] in                               (* unsqueeze(0) *)
  (* run inference *)
  emit EvForward ;;
  let* out := lift (forward model img) in
  let* pred := index0 out in
  let pred := non_max_suppression pred (3 # 10) (45 # 100) 100 in
  (* the annotator draws on a copy *)
  let* im0 := alloc image_arr in
  (* process detections *)
  let* det := index0 pred in
  let* detections := (if negb (length det =? 0) then
       let det :=
         map (rescale_row (rows padded_image, cols padded_image)
                          (rows image_arr, cols image_arr, chans image_arr))
             det in
       lift (collect_detections names det)
     else ret []) in
  (* update tracker *)
  let* tracks := call_update_tracks detections im0 in
  (* annotate tracked objects *)
  annotate_tracks names im0 line_thickness tracks ;;
  (* FPS *)
  let* end_time := time_time in
  let elapsed := (end_time - start_time)%Q in
  if Qeq_bool elapsed 0 then raise ZeroDivisionError else
  let fps := (1 / elapsed)%Q in
  let text := "FPS: " +:+ format_2f fps in
  let* a := load im0 in
  store im0 (draw_text a text) ;;
  emit (EvPutText text) ;;
  ret im0.

(** What [inference] feeds the model with, for the padded frame. *)
Definition model_input (model : Model) (padded_image : ndarray)
  : list Tensor :=
  let img := to_float_div255 (bgr_to_rgb_chw padded_image) in
  [if fp16 model then half img else img].

(** The list [detections] that [inference] builds from [pred[0]]. *)
Definition detections_of (names : names_dict) (image_arr padded_image : ndarray)
    (det : list det_row) : result (list detection) :=
  if negb (length det =? 0) then
    collect_detections names
      (map (rescale_row (rows padded_image, cols padded_image)
                        (rows image_arr, cols image_arr, chans image_arr))
           det)
  else Ok [].

(** *** [run] (lines 91-135) *)

(** [cv2.waitKey(1) & 0xFF == ord('q')] *)
Definition quit_key (key : Z) : bool := (Z.land key 255 =? 113)%Z.

(** The [while True] loop. [reads] are the results of the calls of
    [cap.read()] that are still to come: [Some frame] for [(True, frame)],
    [None] for a failed read; after the last one the video is over and
    the read fails. [keys] are the results of [cv2.waitKey(1)] to come,
    -1 once they are used up. *)
Fixpoint run_loop (model : Model) (names : names_dict)
    (reads : list (option ndarray)) (keys : list Z) : M unit :=
  match reads with
  | [] | None :: _ =>
      emit (EvPrint "End of video or error reading frame.")  (* break *)
  | Some frame_arr :: reads' =>
      let* frame := alloc frame_arr in
      let* annotated_frame := inference frame model names 2 in
      let* a := load annotated_frame in
      emit (EvWrite a) ;;
      emit (EvImshow a) ;;
      if quit_key (hd (-1)%Z keys) then ret tt             (* break *)
      else run_loop model names reads' (tl keys)
  end.

(** [run], from the opened capture on; [deepsort] of the world is the
    freshly built tracker. *)
Definition run (model : Model) (names : names_dict) (is_opened : bool)
    (reads : list (option ndarray)) (keys : list Z) : M unit :=
  if negb is_opened then emit (EvPrint "Error: Could not open video.")
  else run_loop model names reads keys.

End Pipeline.

(** ** The detection post-filter *)

Module Nms.

(** Modelled from the spec: [utils.general.non_max_suppression] is not
    among the sources. Section 4.3 of the design document: of the
    candidates with confidence at least the threshold, the one of highest
    confidence is retained and the others whose intersection-over-union
    with it exceeds the overlap threshold are suppressed; this is repeated
    until no box is left or the maximum count is reached; equal
    confidences keep the order of the candidates. *)

Definition width (r : det_row) : Q := Qmax 0 (row_x2 r - row_x1 r).
Definition height (r : det_row) : Q := Qmax 0 (row_y2 r - row_y1 r).
Definition area (r : det_row) : Q := width r * height r.

Definition intersection (a b : det_row) : Q :=
  Qmax 0 (Qmin (row_x2 a) (row_x2 b) - Qmax (row_x1 a) (row_x1 b)) *
  Qmax 0 (Qmin (row_y2 a) (row_y2 b) - Qmax (row_y1 a) (row_y1 b)).

Definition iou (a b : det_row) : Q :=
  intersection a b / (area a + area b - intersection a b).

(** [b] overlaps [a] by more than the threshold. *)
Definition exceeds (iou_thres : Q) (a b : det_row) : bool :=
  negb (Qle_bool (iou a b) iou_thres).

(** Stable sorting by decreasing confidence. [r], which comes before
    the rows of [l] among the candidates, goes in front of the first row
    of confidence at most its own: behind the rows of higher confidence
    and in front of those of equal confidence. The candidates are
    inserted from the last to the first, so that rows of equal confidence
    stay in the order of the candidates. *)
Fixpoint insert_by_conf (r : det_row) (l : list det_row) : list det_row :=
  match l with
  | [] => [r]
  | x :: l' =>
      if Qle_bool (row_conf x) (row_conf r) then r :: l
      else x :: insert_by_conf r l'
  end.

Definition sort_by_conf (l : list det_row) : list det_row :=
  foldr insert_by_conf [] l.

(** The greedy loop on boxes in order of decreasing confidence, with the
    number of detections that may still be retained. *)
Fixpoint greedy (iou_thres : Q) (budget : nat) (boxes : list det_row)
  : list det_row :=
  match budget, boxes with
  | S budget', b :: rest =>
      b :: greedy iou_thres budget'
             (filter (fun c => exceeds iou_thres b c = false) rest)
  | _, _ => []
  end.

Definition post_filter (candidates : list det_row)
    (conf_thres iou_thres : Q) (max_det : Z) : list det_row :=
  greedy iou_thres (Z.to_nat max_det)
    (sort_by_conf
       (filter (fun c => Qle_bool conf_thres (row_conf c) = true) candidates)).

(** [a] has at least the confidence of [b]. *)
Definition desc (a b : det_row) : Prop := (row_conf b <= row_conf a)%Q.

(** [a] comes before [b] in the output: at least its confidence, and an
    overlap within the threshold. *)
Definition retained_with (iou_thres : Q) (a b : det_row) : Prop :=
  desc a b /\ (iou a b <= iou_thres)%Q.

(** The same selection read as one pass over the boxes in the order in
    which they are considered, for comparison with [greedy]: a box is
    retained when fewer than [budget] boxes are retained so far and none
    of them overlaps it by more than the threshold. *)
Definition scan_step (iou_thres : Q) (budget : nat) (kept : list det_row)
    (c : det_row) : list det_row :=
  if (length kept <? budget)
     && forallb (fun k => negb (exceeds iou_thres k c)) kept
  then kept ++ [c] else kept.

Definition scan (iou_thres : Q) (budget : nat) (boxes : list det_row)
  : list det_row :=
  foldl (scan_step iou_thres budget) [] boxes.

(** The rows of confidence [q]. *)
Definition of_conf (q : Q) (r : det_row) : Prop :=
  Qeq_bool (row_conf r) q = true.

Global Instance of_conf_dec q r : Decision (of_conf q r).
Proof. unfold of_conf. apply _. Defined.

(** The call of the script: one image per batch. *)
Definition non_max_suppression (pred : list det_row)
    (conf_thres iou_thres : Q) (max_det : Z) : list (list det_row) :=
  [post_filter pred conf_thres iou_thres max_det].

End Nms.

(** ** The tracker *)

Module DeepSort.

(** Modelled from the spec: [deep_sort_realtime.deepsort_tracker.DeepSort]
    is not among the sources. Sections 3, 4.4, 4.5 and 9 of the design
    document: the Track State Store holds the active tracks and owns the
    identifier counter; per frame the Association Engine splits tracks and
    detections into matched pairs, unmatched tracks and unmatched
    detections, and the Lifecycle Manager updates matched tracks, ages
    unmatched ones, creates a Tentative track with a fresh identifier for
    every unmatched detection and removes Deleted tracks at the end of
    the cycle. The motion and appearance estimates are not modelled: the
    box of a track is that of its last matched detection. *)

Record config : Type := mk_config {
  n_init : nat;                  (* min-hits-to-confirm *)
  max_age_tentative : nat;
  max_age_confirmed : nat
}.

Record store : Type := mk_store {
  next_id : nat;                 (* the identifier counter *)
  tracks : list Track
}.

Definition empty_store : store := {| next_id := 1; tracks := [] |}.

(** Output of the Association Engine. *)
Record association : Type := mk_association {
  matched : list (nat * detection);       (* track identifier, detection *)
  unmatched_tracks : list nat;
  unmatched_detections : list detection
}.

(** [[x, y, w, h]] as left, top, right, bottom. *)
Definition ltrb_of_detection (d : detection) : list Q :=
  match d with
  | ([x; y; w; h], _, _) =>
      [inject_Z x; inject_Z y; inject_Z (x + w); inject_Z (y + h)]
  | _ => []
  end.

Definition max_age (cfg : config) (s : track_state) : nat :=
  match s with
  | Tentative => max_age_tentative cfg
  | _ => max_age_confirmed cfg
  end.

(** A matched pair: correction with the detection, time since update
    back to 0, one more hit, promotion at the threshold. *)
Definition on_match (cfg : config) (t : Track) (d : detection) : Track :=
  match state t with
  | Deleted => t
  | s =>
      {| track_id := track_id t;
         state := if bool_decide (s = Tentative) && (n_init cfg <=? S (hits t))
                  then Confirmed else s;
         hits := S (hits t);
         time_since_update := 0;
         det_class := det_class t;
         ltrb := ltrb_of_detection d |}
  end.

(** An unmatched track: one frame older, its run of consecutive hits
    broken, Deleted beyond the maximum age of its state. *)
Definition on_miss (cfg : config) (t : Track) : Track :=
  match state t with
  | Deleted => t
  | s =>
      {| track_id := track_id t;
         state := if max_age cfg s <? S (time_since_update t)
                  then Deleted else s;
         hits := 0;
         time_since_update := S (time_since_update t);
         det_class := det_class t;
         ltrb := ltrb t |}
  end.

(** An unmatched detection: a Tentative track with the next identifier. *)
Definition new_track (id : nat) (d : detection) : Track :=
  {| track_id := id; state := Tentative; hits := 1;
     time_since_update := 0;
     det_class := snd d;
     ltrb := ltrb_of_detection d |}.

Fixpoint spawn (next : nat) (ds : list detection) : nat * list Track :=
  match ds with
  | [] => (next, [])
  | d :: ds' =>
      let '(next', ts) := spawn (S next) ds' in
      (next', new_track next d :: ts)
  end.

(** What the Lifecycle Manager does to one track of the store. *)
Definition update_track (cfg : config) (a : association) (t : Track) : Track :=
  match list_find (fun p => fst p = track_id t) (matched a) with
  | Some (_, (_, d)) => on_match cfg t d
  | None =>
      if bool_decide (track_id t ∈ unmatched_tracks a) then on_miss cfg t
      else t
  end.

Definition alive (t : Track) : Prop := state t <> Deleted.

Global Instance alive_dec t : Decision (alive t).
Proof. unfold alive. apply _. Defined.

Section Tracker.

Variable cfg : config.

(** The Association Engine, any. *)
Variable associate : list Track -> list detection -> association.

(** One frame: the new store and the tracks created in this cycle. *)
Definition cycle (st : store) (ds : list detection) : store * list Track :=
  let a := associate (tracks st) ds in
  let updated := update_track cfg a <$> tracks st in
  let '(next, created) := spawn (next_id st) (unmatched_detections a) in
  ({| next_id := next; tracks := filter alive (updated ++ created) |},
   created).

(** [update_tracks(detections, frame=...)]: the store after the cycle and
    its tracks. *)
Definition update_tracks (st : store) (ds : list detection) (frame : ndarray)
  : store * list Track :=
  let st' := fst (cycle st ds) in (st', tracks st').

(** The stores of a run, each with all tracks created up to it. *)
Inductive reachable : store -> list Track -> Prop :=
| reach_init : reachable empty_store []
| reach_cycle st log ds :
    reachable st log ->
    reachable (fst (cycle st ds)) (log ++ snd (cycle st ds)).

(** The three outputs of the engine partition tracks and detections. *)
Definition partitions : Prop :=
  forall ts ds,
    let a := associate ts ds in
    (snd <$> matched a) ++ unmatched_detections a ≡ₚ ds /\
    (fst <$> matched a) ++ unmatched_tracks a ≡ₚ track_id <$> ts.

End Tracker.

End DeepSort.

(** ** Concrete data for the examples *)

Definition px (b g r : Z) : list uint8 :=
  map (fun v => default zero (Byte.of_N (Z.to_N v))) [b; g; r].

(** A frame of 2 rows and 3 columns. *)
Definition frame_2x3 : ndarray :=
  {| rows := 2; cols := 3; chans := 3;
     data := [ [px 1 2 3; px 4 5 6; px 7 8 9];
               [px 10 11 12; px 13 14 15; px 16 17 18] ] |}.

(** A frame of 4 rows and 8 columns, all of one colour. *)
Definition frame_4x8 : ndarray :=
  {| rows := 4; cols := 8; chans := 3;
     data := replicate 4 (replicate 8 (px 9 8 7)) |}.


(** What [resize_and_pad] builds from a frame of three channels when no
    exception is raised. *)
Definition padded (image : ndarray) (stride : Z) : ndarray :=
  let new_h := Z.to_nat (round_up (rows image) stride) in
  let new_w := Z.to_nat (round_up (cols image) stride) in
  {| rows := new_h; cols := new_w; chans := 3;
     data := overlay (overlay (fun s _ => s)) (data image)
                     (data (zero_array new_h new_w 3)) |}.

(** ** Stand-ins for the libraries, for the examples *)

Module Demo.

Definition Tensor : Type := list (list (list uint8)).
Definition RawPred : Type := list det_row.

Definition to_float_div255 (x : list (list (list uint8))) : Tensor := x.
Definition half (t : Tensor) : Tensor := t.

(** Frames and tensors of the same size: the boxes stay. *)
Definition scale_boxes (img1_shape : nat * nat) (box : Q * Q * Q * Q)
    (img0_shape : nat * nat * nat) : Q * Q * Q * Q := box.

Definition colors (i : Z) (bgr : bool) : Z * Z * Z :=
  ((37 * i) mod 256, (17 * i) mod 256, (29 * i) mod 256)%Z.

(** Drawing that blackens the whole frame. *)
Definition draw_box_label (im : ndarray) (box : list Q) (label : string)
    (color : Z * Z * Z) (line_width : Z) : ndarray :=
  zero_array (rows im) (cols im) (chans im).
Definition draw_text (im : ndarray) (text : string) : ndarray :=
  zero_array (rows im) (cols im) (chans im).

Definition format_2f (q : Q) : string :=
  pretty (Qfloor q) +:+ "." +:+ pretty (Qfloor (q * 10) mod 10)%Z
                           +:+ pretty (Qfloor (q * 100) mod 10)%Z.

Definition names : names_dict := [(0, "person"); (1, "bicycle"); (2, "car")]%Z.

(** An engine that pairs the i-th track with the i-th detection. *)
Definition associate (ts : list Track) (ds : list detection)
  : DeepSort.association :=
  let ids := track_id <$> ts in
  {| DeepSort.matched := zip ids ds;
     DeepSort.unmatched_tracks := drop (length ds) ids;
     DeepSort.unmatched_detections := drop (length ids) ds |}.

(** [DeepSort(max_age=30, n_init=3, ...)] *)
Definition cfg : DeepSort.config :=
  {| DeepSort.n_init := 3;
     DeepSort.max_age_tentative := 30;
     DeepSort.max_age_confirmed := 30 |}.

Definition update_tracks := DeepSort.update_tracks cfg associate.

Definition row (x1 y1 x2 y2 : Z) (conf : Q) (cls : Z) : det_row :=
  {| row_x1 := inject_Z x1; row_y1 := inject_Z y1;
     row_x2 := inject_Z x2; row_y2 := inject_Z y2;
     row_conf := conf; row_cls := inject_Z cls |}.

(** Two boxes on top of each other and one apart, and one of low
    confidence. *)
Definition candidates : list det_row :=
  [ row 0 0 10 10 (9 # 10) 0;
    row 1 1 10 10 (8 # 10) 0;
    row 20 20 30 40 (7 # 10) 2;
    row 50 50 60 60 (1 # 10) 1 ].

(** Three boxes apart from each other, of equal confidence, and three
    of decreasing confidence. *)
Definition tied : list det_row :=
  [ row 0 0 10 10 (9 # 10) 0;
    row 20 20 30 30 (9 # 10) 1;
    row 40 40 50 50 (9 # 10) 2 ].

Definition hi_mid_lo : list det_row :=
  [ row 0 0 10 10 (9 # 10) 0;
    row 20 20 30 30 (8 # 10) 1;
    row 40 40 50 50 (7 # 10) 2 ].

(** A model that sees [candidates] in every frame. *)
Definition model_seeing : Model (Tensor := Tensor) (RawPred := RawPred) :=
  {| stride := 4; fp16 := true; forward := fun _ => Ok [candidates] |}.

(** A model that sees nothing. *)
Definition model_blind : Model (Tensor := Tensor) (RawPred := RawPred) :=
  {| stride := 4; fp16 := true; forward := fun _ => Ok [[]] |}.

(** A model whose backend is gone. *)
Definition model_down : Model (Tensor := Tensor) (RawPred := RawPred) :=
  {| stride := 4; fp16 := false;
     forward := fun _ => Raise (ExternalError "backend unavailable") |}.

(** The caller holds [frame_2x3] at reference 0; the clock advances by
    one per reading. *)
Definition world0 : World DeepSort.store :=
  {| heap := {[ 0 := frame_2x3 ]};
     deepsort := DeepSort.empty_store;
     trace := [];
     clock := fun n => inject_Z (Z.of_nat n);
     ticks := 0 |}.

Definition inference :=
  inference (Tensor := Tensor) (RawPred := RawPred)
    update_tracks to_float_div255 half Nms.non_max_suppression scale_boxes
    colors draw_box_label draw_text format_2f.

Definition run_loop :=
  run_loop (Tensor := Tensor) (RawPred := RawPred)
    update_tracks to_float_div255 half Nms.non_max_suppression scale_boxes
    colors draw_box_label draw_text format_2f.

Definition confirmed_track : Track :=
  {| track_id := 1; state := Confirmed; hits := 5; time_since_update := 0;
     det_class := "car"; ltrb := [20; 20; 30; 40]%Q |}.
Definition tentative_track : Track :=
  {| track_id := 2; state := Tentative; hits := 1; time_since_update := 0;
     det_class := "person"; ltrb := [0; 0; 10; 10]%Q |}.
Definition stale_track : Track :=
  {| track_id := 3; state := Confirmed; hits := 7; time_since_update := 2;
     det_class := "person"; ltrb := [1; 1; 10; 10]%Q |}.

Definition detections2 : list detection :=
  [ ([20; 20; 10; 20]%Z, 7 # 10, "car");
    ([0; 0; 10; 10]%Z, 9 # 10, "person") ].

End Demo.

(** ** More concrete data for the examples *)

(** A frame of one channel, 2 rows and 2 columns. *)
Definition frame_gray : ndarray :=
  {| rows := 2; cols := 2; chans := 1;
     data := [ [ [Byte.x0a]; [Byte.x14] ]; [ [Byte.x1e]; [Byte.x28] ] ] |}.

(** A frame of four channels (BGRA), 1 row and 2 columns. *)
Definition frame_bgra : ndarray :=
  {| rows := 1; cols := 2; chans := 4;
     data := [ [ [Byte.x01; Byte.x02; Byte.x03; Byte.xff];
                 [Byte.x04; Byte.x05; Byte.x06; Byte.xff] ] ] |}.

(** The world of [Demo.world0] with another frame at reference 0. *)
Definition world_with (a : ndarray) : World DeepSort.store :=
  {| heap := {[ 0 := a ]};
     deepsort := DeepSort.empty_store;
     trace := [];
     clock := fun n => inject_Z (Z.of_nat n);
     ticks := 0 |}.

(** Names for class 0 only. *)
Definition names_short : names_dict := [(0%Z, "person")].

(** A row whose corners are no integers, and a rescaling by one half. *)
Definition loose_row : det_row :=
  {| row_x1 := 3 # 1; row_y1 := 5 # 1; row_x2 := 21 # 2; row_y2 := 41 # 4;
     row_conf := 9 # 10; row_cls := 0 |}.

Definition halve (img1_shape : nat * nat) (box : Q * Q * Q * Q)
    (img0_shape : nat * nat * nat) : Q * Q * Q * Q :=
  let '(a, b, c, d) := box in (a / 2, b / 2, c / 2, d / 2)%Q.

(** * Properties *)

(** ** Arrays *)

Section ArrayFacts.

Context {A : Type}.

Lemma length_overlay (f : A -> A -> A) (src dst : list A) :
  length (overlay f src dst) = length dst.
Proof.
  revert dst; induction src as [|s src IH]; intros [|d dst]; simpl; auto.
Qed.

Lemma lookup_overlay (f : A -> A -> A) (src dst : list A) (i : nat) :
  overlay f src dst !! i =
  match src !! i, dst !! i with
  | Some s, Some d => Some (f s d)
  | _, o => o
  end.
Proof.
  revert dst i; induction src as [|s src IH]; intros [|d dst] [|i]; simpl;
    try reflexivity.
  - destruct (src !! i); reflexivity.
  - apply IH.
Qed.

Lemma overlay_covering (f : A -> A -> A) (src dst : list A) :
  Forall2 (fun s d => f s d = s) src dst -> overlay f src dst = src.
Proof.
  induction 1 as [|s d src dst Hf _ IH]; simpl; [reflexivity|].
  now rewrite Hf, IH.
Qed.

Lemma stretch_same (n : nat) (l : list A) : length l = n -> stretch n l = l.
Proof.
  destruct l as [|x [|y l]]; simpl; intros <-; reflexivity.
Qed.

End ArrayFacts.

Lemma well_formed_spec (a : ndarray) :
  well_formed a = true <->
  length (data a) = rows a /\
  Forall (fun row => length row = cols a /\
                     Forall (fun p => length p = chans a) row) (data a).
Proof.
  unfold well_formed.
  rewrite andb_true_iff, Nat.eqb_eq, forallb_forall, Forall_forall.
  split; intros [Hl H]; (split; [exact Hl|]); intros row Hrow.
  - apply list_elem_of_In, H in Hrow.
    rewrite andb_true_iff, Nat.eqb_eq, forallb_forall in Hrow.
    destruct Hrow as [Hc Hp]. split; [exact Hc|].
    apply Forall_forall. intros p Hin. apply Nat.eqb_eq, Hp.
    now apply list_elem_of_In.
  - apply list_elem_of_In, H in Hrow. destruct Hrow as [Hc Hp].
    rewrite andb_true_iff, Nat.eqb_eq, forallb_forall.
    split; [exact Hc|]. intros p Hin. apply Nat.eqb_eq.
    rewrite Forall_forall in Hp. now apply Hp, list_elem_of_In.
Qed.

Lemma map_stretch_same {A} (n : nat) (l : list (list A)) :
  Forall (fun x => length x = n) l -> map (stretch n) l = l.
Proof.
  induction 1 as [|x l Hx _ IH]; simpl; [reflexivity|].
  now rewrite stretch_same, IH.
Qed.

Lemma broadcast_to_same (a : ndarray) :
  well_formed a = true ->
  broadcast_to a (rows a) (cols a) (chans a) = data a.
Proof.
  intros [Hl H]%well_formed_spec. unfold broadcast_to.
  rewrite stretch_same by (now rewrite length_map).
  clear Hl. induction H as [|row l [Hc Hp] _ IH]; simpl; [reflexivity|].
  rewrite IH, map_stretch_same by exact Hp.
  now rewrite stretch_same.
Qed.

(** ** Rounding a length up to the stride *)

Lemma round_up_bounds (n : nat) (s : Z) :
  (0 < s)%Z ->
  (Z.of_nat n <= round_up n s < Z.of_nat n + s)%Z /\ (s | round_up n s)%Z.
Proof.
  intros Hs. unfold round_up.
  pose proof (Z.div_mod (Z.of_nat n + s - 1) s ltac:(lia)) as Hdm.
  pose proof (Z.mod_pos_bound (Z.of_nat n + s - 1) s Hs) as Hmod.
  split; [lia|]. exists ((Z.of_nat n + s - 1) / s)%Z. reflexivity.
Qed.

Lemma round_up_smallest (n : nat) (s : Z) :
  (0 < s)%Z ->
  smallest_multiple_geq s n (Z.to_nat (round_up n s)).
Proof.
  intros Hs. destruct (round_up_bounds n s Hs) as [[Hlo Hhi] [q Hq]].
  unfold smallest_multiple_geq. rewrite Z2Nat.id by lia.
  split; [exists q; exact Hq|]. split; [lia|].
  intros m' [k ->] Hk. rewrite Hq in *.
  assert (q < k + 1)%Z by nia. nia.
Qed.

Lemma round_up_multiple (n : nat) (s : Z) :
  (0 < s)%Z -> (s | Z.of_nat n)%Z -> Z.to_nat (round_up n s) = n.
Proof.
  intros Hs [k Hk]. unfold round_up. rewrite Hk.
  replace (k * s + s - 1)%Z with ((s - 1) + k * s)%Z by lia.
  rewrite Z.div_add by lia. rewrite Z.div_small by lia.
  rewrite Z.add_0_l, <- Hk. apply Nat2Z.id.
Qed.

(** ** [resize_and_pad] *)

Lemma zeros_ok (h w c : Z) :
  (0 <= h)%Z -> (0 <= w)%Z -> (0 <= c)%Z -> within_numpy_limit h w c ->
  zeros h w c = Ok (zero_array (Z.to_nat h) (Z.to_nat w) (Z.to_nat c)).
Proof.
  intros Hh Hw Hc Hfit. unfold zeros.
  destruct (Z.ltb_spec h 0); [lia|]. destruct (Z.ltb_spec w 0); [lia|].
  destruct (Z.ltb_spec c 0); [lia|]. cbn [orb].
  destruct (Z.ltb_spec npy_intp_max (nbytes [h; w; c])) as [Hbig|_];
    [|reflexivity].
  unfold within_numpy_limit in Hfit. lia.
Qed.

(** [np.zeros] raises nothing but ValueError. *)
Lemma zeros_raises (h w c : Z) (e : exn) :
  zeros h w c = Raise e -> e = ValueError.
Proof.
  unfold zeros. destruct (_ || _); [now intros [= <-]|].
  destruct (_ <? _)%Z; [now intros [= <-]|discriminate].
Qed.

Lemma zeros_inv (h w c : Z) (a : ndarray) :
  zeros h w c = Ok a ->
  (0 <= h)%Z /\ (0 <= w)%Z /\ (0 <= c)%Z /\ within_numpy_limit h w c /\
  a = zero_array (Z.to_nat h) (Z.to_nat w) (Z.to_nat c).
Proof.
  unfold zeros, within_numpy_limit.
  destruct (Z.ltb_spec h 0); [discriminate|].
  destruct (Z.ltb_spec w 0); [discriminate|].
  destruct (Z.ltb_spec c 0); [discriminate|]. cbn [orb].
  destruct (Z.ltb_spec npy_intp_max (nbytes [h; w; c])); [discriminate|].
  intros [= <-]. auto.
Qed.

Lemma resize_and_pad_ok (image : ndarray) (stride : Z) :
  well_formed image = true -> chans image = 3 -> (0 < stride)%Z ->
  padded_within_limit image stride ->
  resize_and_pad image stride = Ok (padded image stride).
Proof.
  intros Hwf Hc Hs Hfit. unfold resize_and_pad.
  destruct (round_up_bounds (rows image) stride Hs) as [[Hh _] _].
  destruct (round_up_bounds (cols image) stride Hs) as [[Hw _] _].
  destruct (Z.eqb_spec stride 0) as [->|_]; [lia|].
  rewrite zeros_ok by (exact Hfit || lia). change (Z.to_nat 3) with 3.
  unfold setitem_block, padded. cbn [rows cols chans zero_array].
  rewrite !Nat.min_l by lia.
  unfold bcast_ok. rewrite !Nat.eqb_refl, Hc. simpl.
  pose proof (broadcast_to_same image Hwf) as Hb. rewrite Hc in Hb.
  now rewrite Hb.
Qed.

(** What a successful call has returned, for a frame of three channels. *)
Lemma resize_and_pad_inv (image : ndarray) (stride : Z) (out : ndarray) :
  well_formed image = true -> chans image = 3 -> (0 < stride)%Z ->
  resize_and_pad image stride = Ok out ->
  padded_within_limit image stride /\ out = padded image stride.
Proof.
  intros Hwf Hc Hs Hout.
  assert (Hfit : padded_within_limit image stride).
  { revert Hout. unfold resize_and_pad.
    destruct (Z.eqb_spec stride 0) as [->|_]; [lia|].
    destruct (zeros _ _ 3) as [z|e] eqn:Hz; [|discriminate].
    intros _. now apply zeros_inv in Hz as (_ & _ & _ & Hfit & _). }
  split; [exact Hfit|].
  rewrite resize_and_pad_ok in Hout by assumption. now injection Hout.
Qed.

Lemma padded_well_formed (image : ndarray) (stride : Z) :
  well_formed image = true -> chans image = 3 ->
  well_formed (padded image stride) = true.
Proof.
  intros [Hl H]%well_formed_spec Hc. apply well_formed_spec. simpl.
  rewrite length_overlay, length_replicate. split; [reflexivity|].
  apply Forall_lookup. intros i row Hi.
  rewrite lookup_overlay in Hi.
  assert (Hz : forall p : list uint8,
             p ∈ replicate (Z.to_nat (round_up (cols image) stride))
                           (replicate 3 zero) -> length p = 3).
  { intros p [-> _]%elem_of_replicate. apply length_replicate. }
  destruct (data image !! i) as [src|] eqn:Hsrc.
  - destruct (replicate _ _ !! i) as [d|] eqn:Hd; [|discriminate].
    apply lookup_replicate in Hd as [-> _]. injection Hi as <-.
    rewrite length_overlay, length_replicate. split; [reflexivity|].
    apply Forall_lookup. intros j p Hj. rewrite lookup_overlay in Hj.
    rewrite Forall_lookup in H. destruct (H i src Hsrc) as [_ Hp].
    destruct (src !! j) as [q|] eqn:Hq.
    + destruct (replicate _ _ !! j); [|discriminate]. injection Hj as <-.
      rewrite Forall_lookup in Hp. rewrite (Hp j q Hq). exact Hc.
    + apply Hz. eapply list_elem_of_lookup_2. exact Hj.
  - apply lookup_replicate in Hi as [-> _].
    rewrite length_replicate. split; [reflexivity|].
    apply Forall_forall. exact Hz.
Qed.

(** The top-left block of the padded frame is the frame. *)
Lemma padded_inside (image : ndarray) (stride : Z) (i j k : nat) :
  well_formed image = true -> (0 < stride)%Z ->
  i < rows image -> j < cols image ->
  getpx (padded image stride) i j k = getpx image i j k.
Proof.
  intros [Hl H]%well_formed_spec Hs Hi Hj.
  destruct (round_up_bounds (rows image) stride Hs) as [[Hh _] _].
  destruct (round_up_bounds (cols image) stride Hs) as [[Hw _] _].
  unfold getpx. simpl. rewrite lookup_overlay.
  destruct (lookup_lt_is_Some_2 (data image) i ltac:(lia)) as [row Hrow].
  rewrite Hrow. rewrite lookup_replicate_2 by lia.
  rewrite lookup_overlay.
  rewrite Forall_lookup in H. destruct (H i row Hrow) as [Hlen _].
  destruct (lookup_lt_is_Some_2 row j ltac:(lia)) as [p Hp].
  rewrite Hp. now rewrite lookup_replicate_2 by lia.
Qed.

(** Outside the top-left block the padded frame is zero. *)
Lemma padded_outside (image : ndarray) (stride : Z) (i j k : nat) :
  well_formed image = true ->
  i < rows (padded image stride) -> j < cols (padded image stride) -> k < 3 ->
  ~ (i < rows image /\ j < cols image) ->
  getpx (padded image stride) i j k = Some zero.
Proof.
  intros [Hl H]%well_formed_spec Hi Hj Hk Hout. simpl in Hi, Hj.
  unfold getpx. simpl. rewrite lookup_overlay.
  rewrite (lookup_replicate_2 _ _ i) by lia.
  destruct (data image !! i) as [row|] eqn:Hrow.
  - rewrite lookup_overlay.
    rewrite Forall_lookup in H. destruct (H i row Hrow) as [Hlen _].
    apply lookup_lt_Some in Hrow.
    rewrite (lookup_ge_None_2 row j) by lia.
    rewrite lookup_replicate_2 by lia.
    destruct k as [|[|[|k]]]; [reflexivity..|lia].
  - rewrite lookup_replicate_2 by lia.
    destruct k as [|[|[|k]]]; [reflexivity..|lia].
Qed.

Lemma padded_aligned (image : ndarray) (stride : Z) :
  well_formed image = true -> chans image = 3 -> (0 < stride)%Z ->
  (stride | Z.of_nat (rows image))%Z -> (stride | Z.of_nat (cols image))%Z ->
  padded image stride = image.
Proof.
  intros [Hl H]%well_formed_spec Hc Hs Hr Hw. unfold padded.
  rewrite !round_up_multiple by assumption.
  destruct image as [h w c d]. simpl in *. subst c. f_equal.
  apply overlay_covering, Forall2_same_length_lookup_2.
  - now rewrite length_replicate.
  - intros i row drow Hrow [-> _]%lookup_replicate.
    rewrite Forall_lookup in H. destruct (H i row Hrow) as [Hlen _].
    apply overlay_covering, Forall2_same_length_lookup_2.
    + now rewrite length_replicate.
    + reflexivity.
Qed.

Lemma round_up_aligned (n : nat) (s : Z) :
  (0 < s)%Z -> (s | Z.of_nat n)%Z -> round_up n s = Z.of_nat n.
Proof.
  intros Hs Hd. destruct (round_up_bounds n s Hs) as [[Hlo _] _].
  rewrite <- (round_up_multiple n s Hs Hd) at 2. now rewrite Z2Nat.id by lia.
Qed.

Lemma resize_and_pad_too_big (image : ndarray) (stride : Z) :
  (0 < stride)%Z -> ~ padded_within_limit image stride ->
  resize_and_pad image stride = Raise ValueError.
Proof.
  intros Hs Hbig. unfold resize_and_pad.
  destruct (Z.eqb_spec stride 0) as [->|_]; [lia|].
  destruct (zeros _ _ 3) as [z|e] eqn:Hz.
  - apply zeros_inv in Hz as (_ & _ & _ & Hfit & _). now destruct Hbig.
  - now apply zeros_raises in Hz as ->.
Qed.

(** C1, as the code has it. For a frame of three channels with at least
    one row and one column and a positive stride, [resize_and_pad]
    returns, as long as the padded array is one numpy creates, an array
    whose numbers of rows and of columns are the smallest multiples of
    the stride that are at least those of the frame, whose top-left block
    is the frame, pixel for pixel, and which is zero everywhere else;
    when the padded array exceeds numpy's size limit it raises
    ValueError. *)
Theorem resize_and_pad_pads_to_stride (image : ndarray) (stride : Z) :
  well_formed image = true -> chans image = 3 ->
  1 <= rows image -> 1 <= cols image -> (0 < stride)%Z ->
  (padded_within_limit image stride ->
   exists out,
     resize_and_pad image stride = Ok out /\
     well_formed out = true /\ chans out = 3 /\
     smallest_multiple_geq stride (rows image) (rows out) /\
     smallest_multiple_geq stride (cols image) (cols out) /\
     (forall i j k, i < rows image -> j < cols image ->
                    getpx out i j k = getpx image i j k) /\
     (forall i j k, i < rows out -> j < cols out -> k < 3 ->
                    ~ (i < rows image /\ j < cols image) ->
                    getpx out i j k = Some zero)) /\
  (~ padded_within_limit image stride ->
   resize_and_pad image stride = Raise ValueError).
Proof.
  intros Hwf Hc _ _ Hs. split; [|now apply resize_and_pad_too_big].
  intros Hfit. exists (padded image stride).
  split; [now apply resize_and_pad_ok|].
  split; [now apply padded_well_formed|].
  split; [reflexivity|].
  split; [now apply round_up_smallest|].
  split; [now apply round_up_smallest|].
  split.
  - intros i j k Hi Hj. now apply padded_inside.
  - intros i j k Hi Hj Hk Hout. now apply padded_outside.
Qed.

Lemma resize_and_pad_pads_to_stride_witness :
  exists out,
    resize_and_pad frame_2x3 4 = Ok out /\
    well_formed out = true /\ chans out = 3 /\
    smallest_multiple_geq 4 (rows frame_2x3) (rows out) /\
    smallest_multiple_geq 4 (cols frame_2x3) (cols out) /\
    (forall i j k, i < rows frame_2x3 -> j < cols frame_2x3 ->
                   getpx out i j k = getpx frame_2x3 i j k) /\
    (forall i j k, i < rows out -> j < cols out -> k < 3 ->
                   ~ (i < rows frame_2x3 /\ j < cols frame_2x3) ->
                   getpx out i j k = Some zero).
Proof.
  apply (resize_and_pad_pads_to_stride frame_2x3 4).
  - reflexivity.
  - reflexivity.
  - simpl; lia.
  - simpl; lia.
  - lia.
  - unfold padded_within_limit, within_numpy_limit. vm_compute. discriminate.
Defined.

(** C1 as the design document states it, for every positive stride,
    fails at the stride 2^62: the padded array would exceed numpy's size
    limit and [np.zeros] raises ValueError. *)
Lemma huge_stride_is_rejected :
  ~ (forall (image : ndarray) (stride : Z),
       well_formed image = true -> chans image = 3 ->
       1 <= rows image -> 1 <= cols image -> (0 < stride)%Z ->
       exists out, resize_and_pad image stride = Ok out).
Proof.
  intros H.
  destruct (H frame_2x3 (2 ^ 62)%Z eq_refl eq_refl ltac:(simpl; lia)
              ltac:(simpl; lia) ltac:(lia)) as [out Hout].
  assert (Hr : resize_and_pad frame_2x3 (2 ^ 62) = Raise ValueError)
    by (vm_compute; reflexivity).
  rewrite Hr in Hout. discriminate.
Qed.

(** C9. [resize_and_pad] is idempotent on frames of three channels: what
    a call returns is returned as it is by a second call with the same
    stride, a call returns whenever the padded array is one numpy
    creates, and a frame whose numbers of rows and columns are multiples
    of the stride is returned as it is by the first call. *)
Theorem resize_and_pad_idempotent (image : ndarray) (stride : Z) :
  well_formed image = true -> chans image = 3 -> (0 < stride)%Z ->
  (forall out, resize_and_pad image stride = Ok out ->
               resize_and_pad out stride = Ok out) /\
  (padded_within_limit image stride ->
   exists out, resize_and_pad image stride = Ok out /\
               resize_and_pad out stride = Ok out) /\
  ((stride | Z.of_nat (rows image))%Z -> (stride | Z.of_nat (cols image))%Z ->
   within_numpy_limit (Z.of_nat (rows image)) (Z.of_nat (cols image)) 3 ->
   resize_and_pad image stride = Ok image).
Proof.
  intros Hwf Hc Hs.
  assert (Htwice : padded_within_limit image stride ->
            resize_and_pad (padded image stride) stride
            = Ok (padded image stride)).
  { intros Hfit.
    pose proof (padded_well_formed image stride Hwf Hc) as Hwf'.
    destruct (round_up_bounds (rows image) stride Hs) as [[Hh _] Hdh].
    destruct (round_up_bounds (cols image) stride Hs) as [[Hw _] Hdw].
    assert (Hdr : (stride | Z.of_nat (rows (padded image stride)))%Z)
      by (simpl; now rewrite Z2Nat.id by lia).
    assert (Hdc : (stride | Z.of_nat (cols (padded image stride)))%Z)
      by (simpl; now rewrite Z2Nat.id by lia).
    rewrite resize_and_pad_ok; try assumption; try reflexivity.
    - f_equal. now apply padded_aligned.
    - unfold padded_within_limit. rewrite !round_up_aligned by assumption.
      simpl rows. simpl cols. now rewrite !Z2Nat.id by lia. }
  split; [|split].
  - intros out Hout.
    apply resize_and_pad_inv in Hout as [Hfit ->]; try assumption.
    now apply Htwice.
  - intros Hfit. exists (padded image stride).
    split; [now apply resize_and_pad_ok|now apply Htwice].
  - intros Hr Hw Hfit. rewrite resize_and_pad_ok; try assumption.
    + f_equal. now apply padded_aligned.
    + unfold padded_within_limit. now rewrite !round_up_aligned by assumption.
Qed.

Lemma resize_and_pad_idempotent_witness :
  (exists out, resize_and_pad frame_2x3 4 = Ok out /\
               resize_and_pad out 4 = Ok out) /\
  resize_and_pad frame_4x8 4 = Ok frame_4x8.
Proof.
  split.
  - destruct (resize_and_pad_idempotent frame_2x3 4 eq_refl eq_refl ltac:(lia))
      as (_ & Htwice & _).
    apply Htwice.
    unfold padded_within_limit, within_numpy_limit. vm_compute. discriminate.
  - destruct (resize_and_pad_idempotent frame_4x8 4 eq_refl eq_refl ltac:(lia))
      as (_ & _ & Haligned).
    apply Haligned; [exists 1%Z; reflexivity | exists 2%Z; reflexivity |].
    unfold within_numpy_limit. vm_compute. discriminate.
Defined.

(** ** The tuples for the tracker *)

Lemma py_int_integer (q : Q) (z : Z) : q == inject_Z z -> py_int q = z.
Proof.
  unfold Qeq, py_int. simpl. intros H.
  rewrite Z.mul_1_r in H. rewrite H. apply Z.quot_mul. lia.
Qed.

Lemma torch_round_integer (q : Q) : exists z, torch_round q = inject_Z z.
Proof. unfold torch_round. eauto. Qed.

Lemma detection_of_row_tuple (names : names_dict) (r : det_row)
    (d : detection) :
  is_tracker_tuple names r d -> detection_of_row names r = Ok d.
Proof.
  intros (x1 & y1 & x2 & y2 & n & H1 & H2 & H3 & H4 & Hn & ->).
  unfold detection_of_row.
  now rewrite Hn, (py_int_integer _ _ H1), (py_int_integer _ _ H2),
    (py_int_integer _ _ H3), (py_int_integer _ _ H4).
Qed.

Lemma append_detections_tuples (names : names_dict) (rows : list det_row)
    (ds acc : list detection) :
  Forall2 (is_tracker_tuple names) rows ds ->
  append_detections names rows acc = Ok (acc ++ ds).
Proof.
  intros H. revert acc. induction H as [|r d rows ds Hd _ IH]; intros acc.
  - simpl. now rewrite app_nil_r.
  - simpl. rewrite (detection_of_row_tuple _ _ _ Hd), IH.
    now rewrite <- app_assoc.
Qed.

Lemma collect_detections_tuples (names : names_dict) (det : list det_row) :
  Forall (fun r => exists d, is_tracker_tuple names r d) det ->
  exists ds,
    collect_detections names det = Ok ds /\
    Forall2 (is_tracker_tuple names) (reverse det) ds.
Proof.
  intros H.
  assert (exists ds, Forall2 (is_tracker_tuple names) (reverse det) ds)
    as [ds Hds].
  { apply Forall_reverse in H. induction H as [|r rows [d Hd] _ [ds IH]].
    - exists []. constructor.
    - exists (d :: ds). now constructor. }
  exists ds. split; [|exact Hds].
  unfold collect_detections. now rewrite (append_detections_tuples _ _ ds).
Qed.

Lemma dict_get_ok (names : names_dict) (k : Z) (v : string) :
  dict_get names k = Ok v -> (k, v) ∈ names.
Proof.
  unfold dict_get.
  destruct (list_find _ names) as [[i [k' v']]|] eqn:E; [|discriminate].
  intros [= ->]. apply list_find_Some in E as (Hi & Hk & _).
  simpl in Hk. subst k'. eapply list_elem_of_lookup_2, Hi.
Qed.

Lemma dict_get_raises (names : names_dict) (k : Z) (e : exn) :
  dict_get names k = Raise e ->
  e = KeyError /\ forall v, (k, v) ∉ names.
Proof.
  unfold dict_get.
  destruct (list_find _ names) as [[i [k' v']]|] eqn:E; [discriminate|].
  intros [= <-]. split; [reflexivity|]. intros v Hin.
  apply list_find_None in E. rewrite Forall_forall in E.
  now apply (E (k, v) Hin).
Qed.

Lemma append_detections_spec (names : names_dict) (rows : list det_row)
    (acc : list detection) :
  match append_detections names rows acc with
  | Ok out =>
      exists ds, out = acc ++ ds /\
        Forall2 (fun r d => detection_of_row names r = Ok d) rows ds
  | Raise e =>
      e = KeyError /\
      exists r, r ∈ rows /\ forall v, (py_int (row_cls r), v) ∉ names
  end.
Proof.
  revert acc; induction rows as [|r rows IH]; intros acc; simpl.
  - exists []. split; [now rewrite app_nil_r|constructor].
  - destruct (detection_of_row names r) as [d|e] eqn:Hd.
    + specialize (IH (acc ++ [d])).
      destruct (append_detections names rows (acc ++ [d])) as [out|e].
      * destruct IH as (ds & -> & Hds). exists (d :: ds).
        split; [now rewrite <- app_assoc|now constructor].
      * destruct IH as (-> & r' & Hr' & Hno). split; [reflexivity|].
        exists r'. split; [now right|exact Hno].
    + unfold detection_of_row in Hd.
      destruct (dict_get names (py_int (row_cls r))) as [n|e'] eqn:Hn;
        [discriminate|].
      injection Hd as <-. apply dict_get_raises in Hn as [-> Hno].
      split; [reflexivity|]. exists r. split; [now left|exact Hno].
Qed.

(** ** The detection post-filter *)

Section NmsFacts.

Import Nms.

Lemma exceeds_false (thr : Q) (a b : det_row) :
  exceeds thr a b = false <-> (iou a b <= thr)%Q.
Proof.
  unfold exceeds. rewrite negb_false_iff. apply Qle_bool_iff.
Qed.

Lemma exceeds_true (thr : Q) (a b : det_row) :
  exceeds thr a b = true <-> (thr < iou a b)%Q.
Proof.
  unfold exceeds. rewrite negb_true_iff. split.
  - intros H. apply Qnot_le_lt. intros Hle.
    apply Qle_bool_iff in Hle. congruence.
  - intros H. destruct (Qle_bool (iou a b) thr) eqn:E; [|reflexivity].
    apply Qle_bool_iff in E. exfalso. eapply Qlt_not_le; eassumption.
Qed.

Lemma insert_by_conf_perm (r : det_row) (l : list det_row) :
  insert_by_conf r l ≡ₚ r :: l.
Proof.
  induction l as [|x l IH]; simpl; [reflexivity|].
  destruct (Qle_bool (row_conf x) (row_conf r)); [reflexivity|].
  rewrite IH. apply Permutation_swap.
Qed.

Lemma sort_by_conf_perm (l : list det_row) : sort_by_conf l ≡ₚ l.
Proof.
  induction l as [|x l IH]; simpl; [reflexivity|].
  unfold sort_by_conf in *. simpl. now rewrite insert_by_conf_perm, IH.
Qed.

Lemma insert_by_conf_sorted (r : det_row) (l : list det_row) :
  StronglySorted desc l -> StronglySorted desc (insert_by_conf r l).
Proof.
  induction 1 as [|x l Hl IH Hx]; simpl.
  - repeat constructor.
  - destruct (Qle_bool (row_conf x) (row_conf r)) eqn:E.
    + apply Qle_bool_iff in E.
      constructor; [now constructor|].
      constructor; [exact E|].
      eapply Forall_impl; [exact Hx|]. intros y Hy. unfold desc in *.
      eapply Qle_trans; eassumption.
    + assert (Hlt : (row_conf r <= row_conf x)%Q).
      { apply Qlt_le_weak, Qnot_le_lt. intros Hle.
        apply Qle_bool_iff in Hle. congruence. }
      constructor; [exact IH|].
      rewrite insert_by_conf_perm. now constructor.
Qed.

Lemma sort_by_conf_sorted (l : list det_row) :
  StronglySorted desc (sort_by_conf l).
Proof.
  induction l as [|x l IH]; [constructor|].
  now apply insert_by_conf_sorted.
Qed.

(** Rows of equal confidence keep their order. *)
Lemma insert_by_conf_stable (q : Q) (r : det_row) (l : list det_row) :
  filter (of_conf q) (insert_by_conf r l) = filter (of_conf q) (r :: l).
Proof.
  induction l as [|x l IH]; simpl; [reflexivity|].
  destruct (Qle_bool (row_conf x) (row_conf r)) eqn:E; [reflexivity|].
  rewrite (filter_cons _ x), IH, !(filter_cons _ r), (filter_cons _ x).
  destruct (decide (of_conf q r)) as [Hr|Hr]; [|reflexivity].
  destruct (decide (of_conf q x)) as [Hx|Hx]; [|reflexivity].
  exfalso. unfold of_conf in Hr, Hx.
  apply Qeq_bool_iff in Hr, Hx.
  assert (Hle : (row_conf x <= row_conf r)%Q) by (rewrite Hr, Hx; apply Qle_refl).
  apply Qle_bool_iff in Hle. congruence.
Qed.

Lemma sort_by_conf_stable (q : Q) (l : list det_row) :
  filter (of_conf q) (sort_by_conf l) = filter (of_conf q) l.
Proof.
  induction l as [|x l IH]; [reflexivity|].
  change (sort_by_conf (x :: l)) with (insert_by_conf x (sort_by_conf l)).
  now rewrite insert_by_conf_stable, !filter_cons, IH.
Qed.

Lemma filter_sorted {A} (R : A -> A -> Prop) (P : A -> Prop)
    `{forall x, Decision (P x)} (l : list A) :
  StronglySorted R l -> StronglySorted R (filter P l).
Proof.
  induction 1 as [|x l Hl IH Hx]; [constructor|].
  rewrite filter_cons. destruct (decide (P x)); [|exact IH].
  constructor; [exact IH|].
  rewrite Forall_forall in Hx |- *. intros y [_ Hy]%list_elem_of_filter.
  now apply Hx.
Qed.

Section Greedy.

Variable thr : Q.

(** What survives the box [b]. *)
Local Abbreviation clear_of b := (fun c => exceeds thr b c = false).

Lemma greedy_subset (n : nat) (l : list det_row) (x : det_row) :
  x ∈ greedy thr n l -> x ∈ l.
Proof.
  revert l; induction n as [|n IH]; intros [|b rest]; simpl;
    try (intros H; now apply elem_of_nil in H).
  intros [->|Hx]%elem_of_cons; [left|right].
  apply IH in Hx. now apply list_elem_of_filter in Hx as [_ Hx].
Qed.

Lemma greedy_length (n : nat) (l : list det_row) :
  length (greedy thr n l) <= n.
Proof.
  revert l; induction n as [|n IH]; intros [|b rest]; simpl; try lia.
  specialize (IH (filter (clear_of b) rest)). lia.
Qed.

Lemma greedy_separated (n : nat) (l : list det_row) :
  StronglySorted desc l ->
  StronglySorted (retained_with thr) (greedy thr n l).
Proof.
  revert l; induction n as [|n IH]; intros [|b rest] Hs; simpl;
    try constructor.
  - apply IH, filter_sorted. now inversion Hs.
  - apply Forall_forall. intros x Hx. apply greedy_subset in Hx.
    apply list_elem_of_filter in Hx as [Hc Hx]. split.
    + inversion Hs as [|? ? _ Hall]; subst.
      rewrite Forall_forall in Hall. now apply Hall.
    + now apply exceeds_false.
Qed.

Lemma greedy_complete (n : nat) (l : list det_row) (c : det_row) :
  StronglySorted desc l -> c ∈ l ->
  c ∈ greedy thr n l \/
  (exists k, k ∈ greedy thr n l /\ desc k c /\ (thr < iou k c)%Q) \/
  (length (greedy thr n l) = n /\ Forall (fun k => desc k c) (greedy thr n l)).
Proof.
  revert l; induction n as [|n IH]; intros l Hs Hc.
  - right; right. destruct l; split; constructor.
  - destruct l as [|b rest]; [now apply elem_of_nil in Hc|]. simpl.
    inversion Hs as [|? ? Hrest Hall]; subst.
    apply elem_of_cons in Hc as [->|Hc]; [left; left|].
    assert (Hbc : desc b c) by (rewrite Forall_forall in Hall; now apply Hall).
    destruct (exceeds thr b c) eqn:E.
    + right; left. exists b. split; [left|]. split; [exact Hbc|].
      now apply exceeds_true.
    + destruct (IH (filter (clear_of b) rest))
        as [Hin|[(k & Hk & Hd & Hi)|[Hn Hall']]].
      * now apply filter_sorted.
      * now apply list_elem_of_filter.
      * left. now right.
      * right; left. exists k. split; [now right|]. now split.
      * right; right. split; [now rewrite Hn|now constructor].
Qed.

(** The selection taken box by box: what a further box at the end adds. *)
Lemma greedy_snoc (n : nat) (l : list det_row) (c : det_row) :
  greedy thr n (l ++ [c]) = scan_step thr n (greedy thr n l) c.
Proof.
  revert l; induction n as [|n IH]; intros l.
  - unfold scan_step. now destruct l.
  - destruct l as [|b rest]; [simpl; now destruct n|].
    cbn [app greedy]. rewrite filter_app.
    unfold scan_step. cbn [length forallb].
    change (S (length (greedy thr n (filter (clear_of b) rest))) <? S n)
      with (length (greedy thr n (filter (clear_of b) rest)) <? n).
    rewrite filter_cons, filter_nil.
    destruct (decide (exceeds thr b c = false)) as [E|E].
    + rewrite IH, E. unfold scan_step. cbn [negb andb].
      now destruct (_ && _).
    + rewrite app_nil_r. apply not_false_is_true in E. rewrite E.
      cbn [negb andb]. now rewrite andb_false_r.
Qed.

Lemma greedy_scan (n : nat) (l : list det_row) :
  greedy thr n l = scan thr n l.
Proof.
  induction l as [|c l IH] using rev_ind.
  - now destruct n.
  - unfold scan in *. now rewrite greedy_snoc, foldl_app, IH.
Qed.

End Greedy.

(** C5. The post-filter considers the candidates of confidence at least
    the confidence threshold in order of decreasing confidence, equal
    confidences in the order of the candidates, and retains them
    greedily: a box is retained exactly when fewer than [max_det] boxes
    are retained before it and none of these overlaps it by more than the
    overlap threshold. Hence only candidates that reach the confidence
    threshold are returned, at most [max_det] of them, none overlapping
    a retained box of higher or equal confidence beyond the threshold;
    and a candidate that reaches the confidence threshold and is not
    returned is overlapped beyond the threshold by a retained box of at
    least its confidence, or [max_det] boxes of at least its confidence
    were retained. [inference] calls it with the thresholds 0.3 and 0.45
    and with [max_det] 100. *)
Theorem post_filter_is_greedy_nms (candidates : list det_row)
    (conf_thres iou_thres : Q) (max_det : Z) :
  let passing :=
    filter (fun c => Qle_bool conf_thres (row_conf c) = true) candidates in
  let ordered := sort_by_conf passing in
  let kept := post_filter candidates conf_thres iou_thres max_det in
  (ordered ≡ₚ passing /\ StronglySorted desc ordered /\
   forall q, filter (of_conf q) ordered = filter (of_conf q) passing) /\
  kept = scan iou_thres (Z.to_nat max_det) ordered /\
  (forall k, k ∈ kept -> k ∈ candidates /\ (conf_thres <= row_conf k)%Q) /\
  length kept <= Z.to_nat max_det /\
  StronglySorted (retained_with iou_thres) kept /\
  (forall c, c ∈ candidates -> (conf_thres <= row_conf c)%Q ->
     c ∈ kept \/
     (exists k, k ∈ kept /\ (row_conf c <= row_conf k)%Q /\
                (iou_thres < iou k c)%Q) \/
     (length kept = Z.to_nat max_det /\
      forall k, k ∈ kept -> (row_conf c <= row_conf k)%Q)).
Proof.
  intros passing ordered kept. subst kept. unfold post_filter.
  fold passing. fold ordered.
  assert (Hpass : forall c, c ∈ ordered <->
                            c ∈ candidates /\ (conf_thres <= row_conf c)%Q).
  { intros c. subst ordered. rewrite sort_by_conf_perm. subst passing.
    rewrite list_elem_of_filter, Qle_bool_iff. tauto. }
  split; [|split; [|split; [|split; [|split]]]].
  - split; [apply sort_by_conf_perm|].
    split; [apply sort_by_conf_sorted|]. intros q. apply sort_by_conf_stable.
  - apply greedy_scan.
  - intros k Hk. now apply Hpass, greedy_subset with iou_thres (Z.to_nat max_det).
  - apply greedy_length.
  - apply greedy_separated, sort_by_conf_sorted.
  - intros c Hc Hconf.
    destruct (greedy_complete iou_thres (Z.to_nat max_det) ordered c)
      as [Hin|[Hsup|[Hn Hall]]].
    + apply sort_by_conf_sorted.
    + now apply Hpass.
    + now left.
    + right. now left.
    + right. right. split; [exact Hn|].
      rewrite Forall_forall in Hall. exact Hall.
Qed.

End NmsFacts.

(** ** The tracker: identifiers *)

Section TrackerFacts.

Import DeepSort.

Variable cfg : config.
Variable associate : list Track -> list detection -> association.

Lemma on_match_id (t : Track) (d : detection) :
  track_id (on_match cfg t d) = track_id t.
Proof. unfold on_match. now destruct (state t). Qed.

Lemma on_miss_id (t : Track) : track_id (on_miss cfg t) = track_id t.
Proof. unfold on_miss. now destruct (state t). Qed.

Lemma update_track_id (a : association) (t : Track) :
  track_id (update_track cfg a t) = track_id t.
Proof.
  unfold update_track.
  destruct (list_find _ (matched a)) as [[? [? d]]|].
  - apply on_match_id.
  - destruct (bool_decide _); [apply on_miss_id | reflexivity].
Qed.

Lemma spawn_next (next : nat) (ds : list detection) :
  fst (spawn next ds) = next + length ds.
Proof.
  revert next; induction ds as [|d ds IH]; intros next; simpl; [lia|].
  specialize (IH (S next)). destruct (spawn (S next) ds). simpl in *. lia.
Qed.

Lemma spawn_ids (next : nat) (ds : list detection) :
  track_id <$> snd (spawn next ds) = seq next (length ds).
Proof.
  revert next; induction ds as [|d ds IH]; intros next; simpl; [reflexivity|].
  specialize (IH (S next)). destruct (spawn (S next) ds) as [n ts].
  simpl in *. now f_equal.
Qed.

Lemma cycle_next (st : store) (ds : list detection) :
  next_id (fst (cycle cfg associate st ds)) =
  next_id st + length (snd (cycle cfg associate st ds)).
Proof.
  unfold cycle.
  pose proof (spawn_next (next_id st)
                (unmatched_detections (associate (tracks st) ds))) as Hn.
  pose proof (spawn_ids (next_id st)
                (unmatched_detections (associate (tracks st) ds))) as Hi.
  destruct (spawn _ _) as [next created]. simpl in *.
  apply (f_equal length) in Hi. rewrite length_fmap, length_seq in Hi. lia.
Qed.

Lemma cycle_created_ids (st : store) (ds : list detection) :
  track_id <$> snd (cycle cfg associate st ds) =
  seq (next_id st) (length (snd (cycle cfg associate st ds))).
Proof.
  unfold cycle.
  pose proof (spawn_ids (next_id st)
                (unmatched_detections (associate (tracks st) ds))) as Hi.
  destruct (spawn _ _) as [next created]. simpl in *.
  rewrite Hi. f_equal.
  apply (f_equal length) in Hi. now rewrite length_fmap, length_seq in Hi.
Qed.

Lemma cycle_tracks (st : store) (ds : list detection) :
  tracks (fst (cycle cfg associate st ds)) =
  filter alive
    ((update_track cfg (associate (tracks st) ds) <$> tracks st) ++
     snd (cycle cfg associate st ds)).
Proof. unfold cycle. now destruct (spawn _ _). Qed.

(** The identifiers handed out so far are 1, 2, ..., in this order, and
    the tracks of the store carry some of them, in this order. *)
Lemma reachable_ids (st : store) (log : list Track) :
  reachable cfg associate st log ->
  track_id <$> log = seq 1 (next_id st - 1) /\ 1 <= next_id st /\
  (track_id <$> tracks st) `sublist_of` (track_id <$> log).
Proof.
  induction 1 as [|st log ds _ (Hlog & Hpos & Hsub)].
  - simpl. split; [reflexivity|]. split; [lia|]. constructor.
  - rewrite cycle_next, fmap_app, Hlog, cycle_created_ids, cycle_tracks.
    split; [|split; [lia|]].
    + replace (next_id st + length (cycle cfg associate st ds).2 - 1)
        with ((next_id st - 1) + length (cycle cfg associate st ds).2) by lia.
      rewrite seq_app. do 2 f_equal. lia.
    + etrans; [apply fmap_sublist, sublist_filter|].
      rewrite fmap_app, cycle_created_ids. apply sublist_app; [|reflexivity].
      rewrite <- list_fmap_compose.
      erewrite list_fmap_ext; [rewrite <- Hlog; exact Hsub|].
      intros i t _. apply update_track_id.
Qed.

(** C8. In the stores of one run no two tracks ever created share an
    identifier, a cycle leaves the identifier of every track it updates
    as it is, and the tracks a cycle creates get identifiers that no
    earlier track had, deleted or not. *)
Theorem track_identifiers_are_unique (st : store) (log : list Track) :
  reachable cfg associate st log ->
  NoDup (track_id <$> log) /\
  NoDup (track_id <$> tracks st) /\
  (forall t, t ∈ tracks st -> exists t0, t0 ∈ log /\ track_id t0 = track_id t) /\
  forall ds,
    let a := associate (tracks st) ds in
    let st' := fst (cycle cfg associate st ds) in
    let created := snd (cycle cfg associate st ds) in
    tracks st' = filter alive ((update_track cfg a <$> tracks st) ++ created) /\
    (forall t, track_id (update_track cfg a t) = track_id t) /\
    (forall t t0, t ∈ created -> t0 ∈ log -> track_id t <> track_id t0) /\
    NoDup (track_id <$> log ++ created).
Proof.
  intros Hreach.
  destruct (reachable_ids st log Hreach) as (Hlog & Hpos & Hsub).
  assert (Hnd : NoDup (track_id <$> log)) by (rewrite Hlog; apply NoDup_seq).
  split; [exact Hnd|].
  split; [eapply sublist_NoDup; eassumption|].
  split.
  { intros t Ht.
    assert (track_id t ∈ track_id <$> log) as Hin.
    { eapply elem_of_sublist; [|exact Hsub]. now apply list_elem_of_fmap_2. }
    apply list_elem_of_fmap in Hin as (t0 & Heq & Hin). eauto. }
  intros ds a st' created.
  pose proof (reach_cycle cfg associate st log ds Hreach) as Hreach'.
  destruct (reachable_ids _ _ Hreach') as (Hlog' & _ & _).
  assert (Hnd' : NoDup (track_id <$> log ++ created))
    by (subst created; rewrite Hlog'; apply NoDup_seq).
  split; [apply cycle_tracks|].
  split; [apply update_track_id|].
  split; [|exact Hnd'].
  intros t t0 Ht Ht0 Heq.
  rewrite fmap_app in Hnd'. apply NoDup_app in Hnd' as (_ & Hdisj & _).
  apply (Hdisj (track_id t0)); [now apply list_elem_of_fmap_2|].
  rewrite <- Heq. now apply list_elem_of_fmap_2.
Qed.

(** With no detections and an engine whose outputs partition tracks and
    detections, a cycle matches no track: every track ages by one frame
    and none is created. *)
Lemma cycle_without_detections (st : store) :
  partitions associate ->
  cycle cfg associate st [] =
  ({| next_id := next_id st;
      tracks := filter alive (on_miss cfg <$> tracks st) |}, []).
Proof.
  intros Hpart. unfold cycle.
  destruct (Hpart (tracks st) []) as [Hd Ht].
  apply Permutation_nil_r, app_eq_nil in Hd as [Hm Hu].
  apply fmap_nil_inv in Hm. rewrite Hm in Ht. simpl in Ht.
  rewrite Hu. simpl. rewrite app_nil_r. do 3 f_equal.
  apply list_fmap_ext. intros i t Hi. unfold update_track.
  rewrite Hm. simpl.
  rewrite bool_decide_eq_true_2; [reflexivity|].
  rewrite Ht. apply list_elem_of_fmap_2. eapply list_elem_of_lookup_2, Hi.
Qed.

End TrackerFacts.

(** ** [inference] and [run] *)

Section PipelineFacts.

Set Default Proof Using "Type".

Context {TrackerState Tensor RawPred : Type}.
Variable update_tracks :
  TrackerState -> list detection -> ndarray -> TrackerState * list Track.
Variable to_float_div255 : list (list (list uint8)) -> Tensor.
Variable half : Tensor -> Tensor.
Variable non_max_suppression : RawPred -> Q -> Q -> Z -> list (list det_row).
Variable scale_boxes :
  nat * nat -> Q * Q * Q * Q -> nat * nat * nat -> Q * Q * Q * Q.
Variable colors : Z -> bool -> Z * Z * Z.
Variable draw_box_label :
  ndarray -> list Q -> string -> Z * Z * Z -> Z -> ndarray.
Variable draw_text : ndarray -> string -> ndarray.
Variable format_2f : Q -> string.

Local Abbreviation W := (World TrackerState).
Local Abbreviation do_annotate_track :=
  (annotate_track (TrackerState := TrackerState) colors draw_box_label).
Local Abbreviation do_annotate_tracks :=
  (annotate_tracks (TrackerState := TrackerState) colors draw_box_label).
Local Abbreviation do_inference :=
  (inference (Tensor := Tensor) (RawPred := RawPred)
     update_tracks to_float_div255 half non_max_suppression scale_boxes
     colors draw_box_label draw_text format_2f).
Local Abbreviation do_run_loop :=
  (run_loop (Tensor := Tensor) (RawPred := RawPred)
     update_tracks to_float_div255 half non_max_suppression scale_boxes
     colors draw_box_label draw_text format_2f).

(** *** The annotation loop *)

Lemma touches_only_refl (l : loc) (w : W) : touches_only l w w.
Proof. unfold touches_only. auto. Qed.

Lemma touches_only_trans (l : loc) (w1 w2 w3 : W) :
  touches_only l w1 w2 -> touches_only l w2 w3 -> touches_only l w1 w3.
Proof.
  intros (Hd & Hc & Ht & Hdom & Hh) (Hd' & Hc' & Ht' & Hdom' & Hh').
  unfold touches_only. repeat split; try congruence.
  intros l' Hl'. now rewrite Hh', Hh.
Qed.

Lemma annotate_track_run (names : names_dict) (im0 : loc) (lw : Z)
    (t : Track) (w : W) :
  is_Some (heap w !! im0) ->
  exists w',
    do_annotate_track names im0 lw t w = (Ok tt, w') /\
    touches_only im0 w w' /\
    trace w' =
      trace w ++
      (if decide (state t = Confirmed /\ time_since_update t = 0)
       then [box_label_call colors names t] else []).
Proof.
  intros [a Ha]. unfold annotate_track, is_confirmed.
  destruct (decide (state t = Confirmed /\ time_since_update t = 0))
    as [[Hs Ht]|Hno].
  - rewrite bool_decide_eq_true_2 by exact Hs. rewrite Ht. simpl.
    unfold box_label, bind, load, store, emit. rewrite Ha. simpl.
    eexists; split; [reflexivity|]. split; [|reflexivity].
    unfold touches_only. simpl. repeat split.
    + rewrite dom_insert_L. apply elem_of_dom_2 in Ha.
      apply subseteq_union_1_L, singleton_subseteq_l, Ha.
    + intros l' Hl'. now rewrite lookup_insert_ne.
  - assert (negb (bool_decide (state t = Confirmed))
            || (0 <? time_since_update t) = true) as ->.
    { destruct (decide (state t = Confirmed)) as [Hs|Hs].
      - rewrite bool_decide_eq_true_2 by exact Hs. simpl.
        apply Nat.ltb_lt. destruct (time_since_update t) as [|n].
        * exfalso. apply Hno. split; [exact Hs|reflexivity].
        * apply Nat.lt_0_succ.
      - now rewrite bool_decide_eq_false_2 by exact Hs. }
    exists w. rewrite app_nil_r. split; [reflexivity|].
    split; [apply touches_only_refl|reflexivity].
Qed.

Lemma annotate_tracks_run (names : names_dict) (im0 : loc) (lw : Z)
    (tracks : list Track) (w : W) :
  is_Some (heap w !! im0) ->
  exists w',
    do_annotate_tracks names im0 lw tracks w = (Ok tt, w') /\
    touches_only im0 w w' /\
    trace w' =
      trace w ++
      map (box_label_call colors names)
          (filter (fun t => state t = Confirmed /\ time_since_update t = 0)
                  tracks).
Proof.
  revert w. induction tracks as [|t tracks IH]; intros w Hw.
  - exists w. simpl. rewrite app_nil_r.
    split; [reflexivity|]. split; [apply touches_only_refl|reflexivity].
  - destruct (annotate_track_run names im0 lw t w Hw)
      as (w1 & Hstep & Hto & Htr).
    assert (Hw1 : is_Some (heap w1 !! im0)).
    { apply elem_of_dom. destruct Hto as (_ & _ & _ & -> & _).
      now apply elem_of_dom. }
    destruct (IH w1 Hw1) as (w' & Hrest & Hto' & Htr').
    exists w'. simpl. unfold bind at 1. rewrite Hstep.
    split; [exact Hrest|]. split; [eapply touches_only_trans; eassumption|].
    rewrite Htr', Htr, filter_cons.
    destruct (decide (state t = Confirmed /\ time_since_update t = 0));
      simpl; now rewrite <- ?app_assoc.
Qed.

(** C2. The annotation loop of [inference] calls [box_label] for exactly
    the tracks that are Confirmed and have [time_since_update] 0, in the
    order of the track list; a track that is not confirmed or has
    [time_since_update > 0] gets no call. *)
Theorem annotate_tracks_confirmed_updated (names : names_dict) (im0 : loc)
    (lw : Z) (tracks : list Track) (w : W) :
  is_Some (heap w !! im0) ->
  exists w',
    do_annotate_tracks names im0 lw tracks w = (Ok tt, w') /\
    trace w' =
      trace w ++
      map (box_label_call colors names)
          (filter (fun t => state t = Confirmed /\ time_since_update t = 0)
                  tracks).
Proof.
  intros Hw.
  destruct (annotate_tracks_run names im0 lw tracks w Hw)
    as (w' & Hrun & _ & Htr).
  eauto.
Qed.

(** *** One call of [inference], step by step *)

Lemma inference_run (image : loc) (model : Model) (names : names_dict)
    (lw : Z) (w : W) (a p : ndarray) (raw : RawPred) (raws : list RawPred)
    (det : list det_row) (dets : list (list det_row)) (ds : list detection) :
  heap w !! image = Some a ->
  resize_and_pad a (stride model) = Ok p ->
  forward model (model_input to_float_div255 half model p) = Ok (raw :: raws) ->
  non_max_suppression raw (3 # 10) (45 # 100) 100 = det :: dets ->
  detections_of scale_boxes names a p det = Ok ds ->
  let im0 := fresh (dom (heap w)) in
  let tracks := snd (update_tracks (deepsort w) ds a) in
  let elapsed := (clock w (S (ticks w)) - clock w (ticks w))%Q in
  exists w',
    do_inference image model names lw w =
      (if Qeq_bool elapsed 0 then Raise ZeroDivisionError else Ok im0, w') /\
    deepsort w' = fst (update_tracks (deepsort w) ds a) /\
    (forall l, l <> im0 -> heap w' !! l = heap w !! l) /\
    trace w' =
      trace w ++ [EvForward; EvUpdateTracks ds a] ++
      map (box_label_call colors names)
          (filter (fun t => state t = Confirmed /\ time_since_update t = 0)
                  tracks) ++
      (if Qeq_bool elapsed 0 then []
       else [EvPutText ("FPS: " +:+ format_2f (1 / elapsed))]).
Proof.
  intros Ha Hp Hf Hn Hd im0 tracks elapsed.
  unfold inference.
  unfold bind at 1. unfold time_time at 1.
  unfold bind at 1. unfold load at 1. simpl heap. rewrite Ha.
  unfold bind at 1. unfold lift at 1. rewrite Hp.
  unfold bind at 1. unfold emit at 1.
  unfold bind at 1. unfold lift at 1.
  unfold model_input in Hf. rewrite Hf.
  unfold bind at 1. unfold index0 at 1, ret at 1.
  unfold bind at 1. unfold alloc at 1. simpl heap. fold im0.
  unfold bind at 1. rewrite Hn. unfold index0 at 1, ret at 1.
  unfold bind at 1.
  assert ((if negb (length det =? 0)
           then lift (collect_detections names
                  (map (rescale_row scale_boxes (rows p, cols p)
                          (rows a, cols a, chans a)) det))
           else ret [])
          = lift (TrackerState := TrackerState)
              (detections_of scale_boxes names a p det)) as ->.
  { unfold detections_of. now destruct (negb (length det =? 0)). }
  rewrite Hd. unfold lift at 1.
  unfold bind at 1. unfold call_update_tracks.
  unfold bind at 1. unfold load at 1. simpl heap. rewrite lookup_insert_eq.
  unfold bind at 1. unfold emit at 1. simpl deepsort. simpl trace.
  destruct (update_tracks (deepsort w) ds a) as [s' tr] eqn:Hu.
  simpl in tracks. subst tracks.
  match goal with |- exists _, _ ?w3 = _ /\ _ =>
    destruct (annotate_tracks_run names im0 lw tr w3)
      as (w4 & Hrun & (Hds & Hck & Htk & Hdom & Hheap) & Htr)
  end.
  { cbn [heap set_deepsort set_trace set_heap set_ticks].
    rewrite lookup_insert_eq. eauto. }
  unfold bind at 1. rewrite Hrun.
  unfold bind at 1. unfold time_time at 1. rewrite Hck, Htk.
  cbn [heap trace deepsort clock ticks
       set_deepsort set_trace set_heap set_ticks] in *.
  fold elapsed.
  assert (Hoff : forall l, l <> im0 -> heap w4 !! l = heap w !! l).
  { intros l Hl. rewrite Hheap by exact Hl. now rewrite lookup_insert_ne. }
  assert (Htr4 : trace w4 = trace w ++ [EvForward; EvUpdateTracks ds a] ++
            map (box_label_call colors names)
              (filter (fun t => state t = Confirmed /\ time_since_update t = 0)
                      tr)).
  { rewrite Htr. now rewrite <- !app_assoc. }
  destruct (Qeq_bool elapsed 0).
  - eexists. split; [reflexivity|]. simpl.
    rewrite app_nil_r. auto.
  - assert (is_Some (heap w4 !! im0)) as [a4 Ha4].
    { apply elem_of_dom. rewrite Hdom, dom_insert_L.
      apply elem_of_union_l, elem_of_singleton. reflexivity. }
    unfold bind at 1. unfold load at 1. simpl heap. rewrite Ha4.
    unfold bind, store, emit, ret. simpl.
    eexists. split; [reflexivity|]. simpl.
    split; [exact Hds|]. split.
    + intros l Hl. rewrite lookup_insert_ne by congruence. now apply Hoff.
    + rewrite Htr4. now rewrite <- !app_assoc.
Qed.

(** *** What the tracker is handed *)

(** After rescaling and rounding the corners of a row are integers. *)
Lemma rescale_row_tuple (names : names_dict) (hw : nat * nat)
    (shape : nat * nat * nat) (r : det_row) :
  is_ok (dict_get names (py_int (row_cls r))) = true ->
  exists d, is_tracker_tuple names (rescale_row scale_boxes hw shape r) d.
Proof.
  intros Hn. destruct (dict_get names (py_int (row_cls r))) as [n|] eqn:E;
    [|discriminate].
  unfold rescale_row.
  destruct (scale_boxes hw _ shape) as [[[c1 c2] c3] c4].
  destruct (torch_round_integer c1) as [z1 H1].
  destruct (torch_round_integer c2) as [z2 H2].
  destruct (torch_round_integer c3) as [z3 H3].
  destruct (torch_round_integer c4) as [z4 H4].
  eexists. exists z1, z2, z3, z4, n. simpl.
  rewrite H1, H2, H3, H4. repeat split; try reflexivity. exact E.
Qed.

(** C4. A row with integer corners [(x1, y1, x2, y2)] becomes the tuple
    [([x1, y1, x2 - x1, y2 - y1], confidence, class name)], the name
    being the entry of [names] at the class index, and the list handed to
    [update_tracks] by [inference] holds these tuples for the rescaled
    and rounded rows of [pred[0]], in reverse order. *)
Theorem detections_are_xywh_conf_class (names : names_dict) :
  (forall det : list det_row,
     Forall (fun r => exists d, is_tracker_tuple names r d) det ->
     exists ds,
       collect_detections names det = Ok ds /\
       Forall2 (is_tracker_tuple names) (reverse det) ds) /\
  (forall (image : loc) (model : Model) (lw : Z) (w : W) (a p : ndarray)
          (raw : RawPred) (raws : list RawPred) (det : list det_row)
          (dets : list (list det_row)),
     heap w !! image = Some a ->
     resize_and_pad a (stride model) = Ok p ->
     forward model (model_input to_float_div255 half model p)
       = Ok (raw :: raws) ->
     non_max_suppression raw (3 # 10) (45 # 100) 100 = det :: dets ->
     Forall (fun r => is_ok (dict_get names (py_int (row_cls r))) = true)
            det ->
     exists ds r w',
       do_inference image model names lw w = (r, w') /\
       EvUpdateTracks ds a ∈ trace w' /\
       Forall2 (is_tracker_tuple names)
         (reverse (map (rescale_row scale_boxes (rows p, cols p)
                          (rows a, cols a, chans a)) det))
         ds).
Proof.
  split; [apply collect_detections_tuples|].
  intros image model lw w a p raw raws det dets Ha Hp Hf Hn Hcls.
  destruct (collect_detections_tuples names
              (map (rescale_row scale_boxes (rows p, cols p)
                      (rows a, cols a, chans a)) det))
    as (ds & Hds & Htup).
  { apply Forall_forall. intros r' Hr'.
    apply list_elem_of_In, in_map_iff in Hr' as (r & <- & Hr).
    apply rescale_row_tuple. rewrite Forall_forall in Hcls.
    now apply Hcls, list_elem_of_In. }
  assert (Hdet : detections_of scale_boxes names a p det = Ok ds).
  { unfold detections_of. destruct det as [|r0 det]; [|exact Hds].
    exact Hds. }
  destruct (inference_run image model names lw w a p raw raws det dets ds
              Ha Hp Hf Hn Hdet) as (w' & Hrun & _ & _ & Htr).
  eexists ds, _, w'. split; [exact Hrun|]. split; [|exact Htup].
  rewrite Htr. apply elem_of_app. right.
  apply elem_of_cons. right. apply elem_of_cons. now left.
Qed.

(** *** A failing detector *)

Lemma inference_forward_raises (image : loc) (model : Model)
    (names : names_dict) (lw : Z) (w : W) (a p : ndarray) (e : exn) :
  heap w !! image = Some a ->
  resize_and_pad a (stride model) = Ok p ->
  forward model (model_input to_float_div255 half model p) = Raise e ->
  exists w',
    do_inference image model names lw w = (Raise e, w') /\
    deepsort w' = deepsort w /\ heap w' = heap w /\
    trace w' = trace w ++ [EvForward].
Proof.
  intros Ha Hp Hf. unfold inference.
  unfold bind at 1. unfold time_time at 1.
  unfold bind at 1. unfold load at 1. simpl heap. rewrite Ha.
  unfold bind at 1. unfold lift at 1. rewrite Hp.
  unfold bind at 1. unfold emit at 1.
  unfold bind at 1. unfold lift at 1.
  unfold model_input in Hf. rewrite Hf.
  eexists. split; [reflexivity|]. auto.
Qed.

(** C6. When the model raises an exception on a frame, [inference] ends
    with that exception, and so does the loop of [run] that called it;
    [update_tracks] is not called for the frame and the state of the
    tracker is the one from before the frame. *)
Theorem detector_failure_is_fatal (model : Model) (names : names_dict)
    (a p : ndarray) (e : exn) :
  resize_and_pad a (stride model) = Ok p ->
  forward model (model_input to_float_div255 half model p) = Raise e ->
  (forall (image : loc) (lw : Z) (w : W),
     heap w !! image = Some a ->
     exists w',
       do_inference image model names lw w = (Raise e, w') /\
       deepsort w' = deepsort w /\
       trace w' = trace w ++ [EvForward]) /\
  (forall (reads : list (option ndarray)) (keys : list Z) (w : W),
     exists w',
       do_run_loop model names (Some a :: reads) keys w = (Raise e, w') /\
       deepsort w' = deepsort w /\
       trace w' = trace w ++ [EvForward]).
Proof.
  intros Hp Hf. split.
  - intros image lw w Ha.
    destruct (inference_forward_raises image model names lw w a p e Ha Hp Hf)
      as (w' & Hrun & Hds & _ & Htr).
    eauto.
  - intros reads keys w. simpl.
    unfold bind at 1. unfold alloc at 1.
    destruct (inference_forward_raises (fresh (dom (heap w))) model names 2
                (set_heap (<[fresh (dom (heap w)) := a]> (heap w)) w) a p e)
      as (w' & Hrun & Hds & _ & Htr); try assumption.
    { cbn [heap set_heap]. apply lookup_insert_eq. }
    unfold bind at 1.
    rewrite Hrun. eauto.
Qed.

(** *** A frame without detections *)

Lemma inference_without_detections (image : loc) (model : Model)
    (names : names_dict) (lw : Z) (w : W) (a p : ndarray) (raw : RawPred)
    (raws : list RawPred) (dets : list (list det_row)) :
  heap w !! image = Some a ->
  resize_and_pad a (stride model) = Ok p ->
  forward model (model_input to_float_div255 half model p) = Ok (raw :: raws) ->
  non_max_suppression raw (3 # 10) (45 # 100) 100 = [] :: dets ->
  let elapsed := (clock w (S (ticks w)) - clock w (ticks w))%Q in
  exists w',
    do_inference image model names lw w =
      (if Qeq_bool elapsed 0 then Raise ZeroDivisionError
       else Ok (fresh (dom (heap w))), w') /\
    deepsort w' = fst (update_tracks (deepsort w) [] a) /\
    EvUpdateTracks [] a ∈ trace w'.
Proof.
  intros Ha Hp Hf Hn elapsed.
  destruct (inference_run image model names lw w a p raw raws [] dets []
              Ha Hp Hf Hn eq_refl) as (w' & Hrun & Hds & _ & Htr).
  exists w'. split; [exact Hrun|]. split; [exact Hds|].
  rewrite Htr. set_solver.
Qed.

(** C7. When the post-filter leaves no detection for a frame,
    [inference] raises nothing on that account: it calls [update_tracks]
    with the empty list and goes on to annotate, so that the only
    exception left is the division by an elapsed time of zero in the FPS
    line, which every frame shares. With a tracker as the design document
    describes it, the empty list matches no track: every track of the
    store is aged as unmatched and no track is created. *)
Theorem no_detections_is_valid (image : loc) (model : Model)
    (names : names_dict) (lw : Z) (w : W) (a p : ndarray) (raw : RawPred)
    (raws : list RawPred) (dets : list (list det_row)) :
  heap w !! image = Some a ->
  resize_and_pad a (stride model) = Ok p ->
  forward model (model_input to_float_div255 half model p) = Ok (raw :: raws) ->
  non_max_suppression raw (3 # 10) (45 # 100) 100 = [] :: dets ->
  let elapsed := (clock w (S (ticks w)) - clock w (ticks w))%Q in
  (exists w',
     do_inference image model names lw w =
       (if Qeq_bool elapsed 0 then Raise ZeroDivisionError
        else Ok (fresh (dom (heap w))), w') /\
     deepsort w' = fst (update_tracks (deepsort w) [] a) /\
     EvUpdateTracks [] a ∈ trace w') /\
  (forall cfg associate st frame,
     DeepSort.partitions associate ->
     DeepSort.update_tracks cfg associate st [] frame =
       let ts := filter DeepSort.alive
                   (DeepSort.on_miss cfg <$> DeepSort.tracks st) in
       ({| DeepSort.next_id := DeepSort.next_id st; DeepSort.tracks := ts |},
        ts)).
Proof.
  intros Ha Hp Hf Hn elapsed. split.
  - now apply (inference_without_detections image model names lw w a p
                 raw raws dets).
  - intros cfg associate st frame Hpart. unfold DeepSort.update_tracks.
    now rewrite cycle_without_detections.
Qed.

(** *** Frames that cannot be processed *)


(** *** The caller's frame *)

Section Keeps.

Variable l : loc.
Variable a : ndarray.

Lemma keeps_bind {A B} (m : M TrackerState A) (k : A -> M TrackerState B)
    (P : A -> Prop) (Q : B -> Prop) :
  keeps l a m P -> (forall v, P v -> keeps l a (k v) Q) ->
  keeps l a (bind m k) Q.
Proof.
  intros Hm Hk w Hw. unfold bind. destruct (Hm w Hw) as [Hh Hv].
  destruct (m w) as [[v|e] w1]; simpl in *.
  - apply (Hk v (Hv v eq_refl) w1 Hh).
  - split; [exact Hh|]. discriminate.
Qed.

Lemma keeps_weaken {A} (m : M TrackerState A) (P Q : A -> Prop) :
  keeps l a m P -> (forall v, P v -> Q v) -> keeps l a m Q.
Proof. intros Hm HPQ w Hw. destruct (Hm w Hw). split; auto. Qed.

Lemma keeps_ret {A} (v : A) (P : A -> Prop) :
  P v -> keeps l a (ret (TrackerState := TrackerState) v) P.
Proof. intros HP w Hw. simpl. split; [exact Hw|]. now intros ? [= <-]. Qed.

Lemma keeps_raise {A} (e : exn) (P : A -> Prop) :
  keeps l a (raise (TrackerState := TrackerState) e) P.
Proof. intros w Hw. simpl. split; [exact Hw|]. discriminate. Qed.

Lemma keeps_lift {A} (r : result A) :
  keeps l a (lift (TrackerState := TrackerState) r) (fun _ => True).
Proof. intros w Hw. simpl. auto. Qed.

Lemma keeps_index0 {A} (xs : list A) :
  keeps l a (index0 (TrackerState := TrackerState) xs) (fun _ => True).
Proof. destruct xs; [apply keeps_raise | now apply keeps_ret]. Qed.

Lemma keeps_emit (ev : event) :
  keeps l a (emit (TrackerState := TrackerState) ev) (fun _ => True).
Proof. intros w Hw. simpl. auto. Qed.

Lemma keeps_time_time :
  keeps l a (time_time (TrackerState := TrackerState)) (fun _ => True).
Proof. intros w Hw. simpl. auto. Qed.

Lemma keeps_load (l' : loc) :
  keeps l a (load (TrackerState := TrackerState) l') (fun _ => True).
Proof. intros w Hw. unfold load. destruct (heap w !! l'); simpl; auto. Qed.

(** A new array is not the caller's. *)
Lemma keeps_alloc (b : ndarray) :
  keeps l a (alloc (TrackerState := TrackerState) b) (fun l' => l' <> l).
Proof.
  intros w Hw. unfold alloc. simpl.
  assert (Hne : fresh (dom (heap w)) <> l).
  { intros Heq. apply (is_fresh (dom (heap w))). rewrite Heq.
    eapply elem_of_dom_2, Hw. }
  split; [now rewrite lookup_insert_ne|]. now intros ? [= <-].
Qed.

Lemma keeps_store (l' : loc) (b : ndarray) :
  l' <> l ->
  keeps l a (store (TrackerState := TrackerState) l' b) (fun _ => True).
Proof. intros Hne w Hw. simpl. now rewrite lookup_insert_ne. Qed.

Lemma keeps_annotate_tracks (names : names_dict) (im0 : loc) (lw : Z)
    (tracks : list Track) :
  im0 <> l ->
  keeps l a (do_annotate_tracks names im0 lw tracks) (fun _ => True).
Proof.
  intros Hne. induction tracks as [|t tracks IH]; simpl.
  - now apply keeps_ret.
  - eapply keeps_bind; [|intros; exact IH].
    unfold annotate_track.
    destruct (negb (is_confirmed t) || (0 <? time_since_update t)).
    + now apply (keeps_ret _ (fun _ => True)).
    + unfold box_label.
      eapply keeps_bind; [apply keeps_load|]. intros b _.
      eapply keeps_bind; [now apply keeps_store|]. intros _ _.
      apply keeps_emit.
Qed.

Lemma keeps_call_update_tracks (ds : list detection) (im0 : loc) :
  keeps l a (call_update_tracks update_tracks ds im0) (fun _ => True).
Proof.
  unfold call_update_tracks.
  eapply keeps_bind; [apply keeps_load|]. intros b _.
  eapply keeps_bind; [apply keeps_emit|]. intros _ _.
  intros w Hw. destruct (update_tracks (deepsort w) ds b). simpl. auto.
Qed.

Lemma keeps_inference (image : loc) (model : Model) (names : names_dict)
    (lw : Z) :
  keeps l a (do_inference image model names lw) (fun im0 => im0 <> l).
Proof.
  unfold inference.
  eapply keeps_bind; [apply keeps_time_time|]. intros t0 _.
  eapply keeps_bind; [apply keeps_load|]. intros b _.
  eapply keeps_bind; [apply keeps_lift|]. intros p _.
  eapply keeps_bind; [apply keeps_emit|]. intros _ _.
  eapply keeps_bind; [apply keeps_lift|]. intros out _.
  eapply keeps_bind; [apply keeps_index0|]. intros pred _.
  eapply keeps_bind; [apply keeps_alloc|]. intros im0 Him0. simpl in Him0.
  eapply keeps_bind; [apply keeps_index0|]. intros det _.
  eapply keeps_bind with (P := fun _ => True).
  { destruct (negb (length det =? 0));
      [apply keeps_lift | now apply keeps_ret]. }
  intros ds _.
  eapply keeps_bind; [apply keeps_call_update_tracks|]. intros tracks _.
  eapply keeps_bind; [now apply keeps_annotate_tracks|]. intros _ _.
  eapply keeps_bind; [apply keeps_time_time|]. intros t1 _.
  destruct (Qeq_bool (t1 - t0) 0); [apply keeps_raise|].
  eapply keeps_bind; [apply keeps_load|]. intros b' _.
  eapply keeps_bind; [now apply keeps_store|]. intros _ _.
  eapply keeps_bind; [apply keeps_emit|]. intros _ _.
  now apply keeps_ret.
Qed.

End Keeps.

(** C10. [inference] does not change the frame it is given: whatever it
    returns or raises, the array at the caller's reference holds the
    pixels it held before; boxes, labels and the FPS text go to another
    array. *)
Theorem inference_keeps_input_frame (image : loc) (model : Model)
    (names : names_dict) (lw : Z) (w w' : W) (a : ndarray)
    (r : result loc) :
  heap w !! image = Some a ->
  do_inference image model names lw w = (r, w') ->
  heap w' !! image = Some a /\
  forall im0, r = Ok im0 -> im0 <> image.
Proof.
  intros Ha Hrun.
  destruct (keeps_inference image a image model names lw w Ha) as [Hh Hv].
  rewrite Hrun in Hh, Hv. split; [exact Hh|].
  intros im0 ->. now apply Hv.
Qed.

(** *** The frame [inference] returns *)

Lemma annotate_track_frame (names : names_dict) (im0 : loc) (lw : Z)
    (t : Track) (w : W) (b : ndarray) :
  heap w !! im0 = Some b ->
  heap (snd (do_annotate_track names im0 lw t w)) !! im0 =
  Some (if decide (state t = Confirmed /\ time_since_update t = 0)
        then draw_track colors draw_box_label names lw b t else b).
Proof.
  intros Hb. unfold annotate_track, is_confirmed.
  destruct (decide (state t = Confirmed /\ time_since_update t = 0))
    as [[Hs Ht]|Hno].
  - rewrite bool_decide_eq_true_2 by exact Hs. rewrite Ht. simpl.
    unfold box_label, bind, load, store, emit. rewrite Hb. simpl.
    now rewrite lookup_insert_eq.
  - assert (negb (bool_decide (state t = Confirmed))
            || (0 <? time_since_update t) = true) as ->.
    { destruct (decide (state t = Confirmed)) as [Hs|Hs].
      - rewrite bool_decide_eq_true_2 by exact Hs. simpl.
        apply Nat.ltb_lt. destruct (time_since_update t) as [|n].
        * exfalso. apply Hno. split; [exact Hs|reflexivity].
        * apply Nat.lt_0_succ.
      - now rewrite bool_decide_eq_false_2 by exact Hs. }
    exact Hb.
Qed.

Lemma annotate_tracks_frame (names : names_dict) (im0 : loc) (lw : Z)
    (tracks : list Track) (w : W) (b : ndarray) :
  heap w !! im0 = Some b ->
  heap (snd (do_annotate_tracks names im0 lw tracks w)) !! im0 =
  Some (annotated colors draw_box_label names lw b tracks).
Proof.
  revert w b. induction tracks as [|t tracks IH]; intros w b Hb.
  - exact Hb.
  - pose proof (annotate_track_frame names im0 lw t w b Hb) as Hstep.
    destruct (annotate_track_run names im0 lw t w) as (w1 & Hrun & _ & _);
      [eauto|].
    simpl. unfold bind at 1. rewrite Hrun in *. simpl in Hstep.
    rewrite (IH w1 _ Hstep). unfold annotated. rewrite filter_cons.
    now destruct (decide (state t = Confirmed /\ time_since_update t = 0)).
Qed.

(** X10. When [inference] returns, the array it returns is a new one that
    holds the caller's frame with the boxes of the Confirmed tracks of
    [time_since_update] 0 drawn in the order of the track list and the
    FPS text drawn last; the caller's frame is as before. In particular
    with no such track only the FPS text is drawn. *)
Theorem inference_returns_annotated_copy (image : loc) (model : Model)
    (names : names_dict) (lw : Z) (w : W) (a p : ndarray) (raw : RawPred)
    (raws : list RawPred) (det : list det_row) (dets : list (list det_row))
    (ds : list detection) :
  heap w !! image = Some a ->
  resize_and_pad a (stride model) = Ok p ->
  forward model (model_input to_float_div255 half model p) = Ok (raw :: raws) ->
  non_max_suppression raw (3 # 10) (45 # 100) 100 = det :: dets ->
  detections_of scale_boxes names a p det = Ok ds ->
  let tracks := snd (update_tracks (deepsort w) ds a) in
  let elapsed := (clock w (S (ticks w)) - clock w (ticks w))%Q in
  Qeq_bool elapsed 0 = false ->
  exists im0 w',
    do_inference image model names lw w = (Ok im0, w') /\
    im0 <> image /\ heap w !! im0 = None /\
    heap w' !! image = Some a /\
    heap w' !! im0 =
      Some (draw_text (annotated colors draw_box_label names lw a tracks)
                      ("FPS: " +:+ format_2f (1 / elapsed))) /\
    ((forall t, t ∈ tracks ->
        ~ (state t = Confirmed /\ time_since_update t = 0)) ->
     heap w' !! im0 =
       Some (draw_text a ("FPS: " +:+ format_2f (1 / elapsed)))).
Proof.
  intros Ha Hp Hf Hn Hd tracks elapsed Hel.
  set (im0 := fresh (dom (heap w))).
  assert (Hfresh : heap w !! im0 = None).
  { apply not_elem_of_dom, is_fresh. }
  assert (Hne : im0 <> image) by (intros ->; congruence).
  assert (Hframe : exists w',
    do_inference image model names lw w = (Ok im0, w') /\
    heap w' !! image = Some a /\
    heap w' !! im0 =
      Some (draw_text (annotated colors draw_box_label names lw a tracks)
                      ("FPS: " +:+ format_2f (1 / elapsed)))).
  { unfold inference.
    unfold bind at 1. unfold time_time at 1.
    unfold bind at 1. unfold load at 1. simpl heap. rewrite Ha.
    unfold bind at 1. unfold lift at 1. rewrite Hp.
    unfold bind at 1. unfold emit at 1.
    unfold bind at 1. unfold lift at 1.
    unfold model_input in Hf. rewrite Hf.
    unfold bind at 1. unfold index0 at 1, ret at 1.
    unfold bind at 1. unfold alloc at 1. simpl heap. fold im0.
    unfold bind at 1. rewrite Hn. unfold index0 at 1, ret at 1.
    unfold bind at 1.
    assert ((if negb (length det =? 0)
             then lift (collect_detections names
                    (map (rescale_row scale_boxes (rows p, cols p)
                            (rows a, cols a, chans a)) det))
             else ret [])
            = lift (TrackerState := TrackerState)
                (detections_of scale_boxes names a p det)) as ->.
    { unfold detections_of. now destruct (negb (length det =? 0)). }
    rewrite Hd. unfold lift at 1.
    unfold bind at 1. unfold call_update_tracks.
    unfold bind at 1. unfold load at 1. simpl heap. rewrite lookup_insert_eq.
    unfold bind at 1. unfold emit at 1. simpl deepsort. simpl trace.
    subst tracks.
    destruct (update_tracks (deepsort w) ds a) as [s' tr] eqn:Hu.
    cbn [snd].
    match goal with |- exists _, _ ?w3 = _ /\ _ =>
      destruct (annotate_tracks_run names im0 lw tr w3)
        as (w4 & Hrun & (_ & Hck & Htk & _ & Hheap) & _);
      [cbn [heap set_deepsort set_trace set_heap set_ticks];
       rewrite lookup_insert_eq; eauto|];
      pose proof (annotate_tracks_frame names im0 lw tr w3 a) as Hfr
    end.
    rewrite Hrun in Hfr.
    cbn [heap trace deepsort clock ticks snd
         set_deepsort set_trace set_heap set_ticks] in Hfr, Hck, Htk, Hheap.
    specialize (Hfr (lookup_insert_eq _ _ _)).
    unfold bind at 1. rewrite Hrun.
    unfold bind at 1. unfold time_time at 1. rewrite Hck, Htk.
    fold elapsed. rewrite Hel.
    unfold bind at 1. unfold load at 1. simpl heap. rewrite Hfr.
    unfold bind, store, emit, ret. simpl.
    eexists. split; [reflexivity|]. simpl.
    rewrite lookup_insert_eq. split; [|reflexivity].
    rewrite lookup_insert_ne by exact Hne.
    rewrite Hheap by congruence. now rewrite lookup_insert_ne by exact Hne. }
  destruct Hframe as (w' & Hrun & Himg & Hout).
  exists im0, w'. repeat split; try assumption.
  intros Hnone. rewrite Hout. do 2 f_equal. unfold annotated.
  replace (filter _ tracks) with (@nil Track); [reflexivity|].
  symmetry. clear -Hnone. induction tracks as [|t ts IH]; [reflexivity|].
  rewrite filter_cons.
  destruct (decide (state t = Confirmed /\ time_since_update t = 0)) as [Hs|_].
  - exfalso. apply (Hnone t); [left|exact Hs].
  - apply IH. intros t' Ht'. apply Hnone. now right.
Qed.

(** *** How [inference] fails, and what it has done by then *)

(** X11. A frame that [resize_and_pad] rejects makes [inference] raise
    the same exception before anything else happens: the model is not
    called, no array is created, the tracker is not updated; only the
    clock has been read once. *)
Theorem inference_rejected_frame (image : loc) (model : Model)
    (names : names_dict) (lw : Z) (w : W) (a : ndarray) (e : exn) :
  heap w !! image = Some a ->
  resize_and_pad a (stride model) = Raise e ->
  do_inference image model names lw w = (Raise e, set_ticks (S (ticks w)) w) /\
  (chans a <> 3 -> chans a <> 1 -> (0 < stride model)%Z -> e = ValueError) /\
  (stride model = 0%Z -> e = ZeroDivisionError).
Proof.
  intros Ha Hp. split; [|split].
  - unfold inference.
    unfold bind at 1. unfold time_time at 1.
    unfold bind at 1. unfold load at 1. simpl heap. rewrite Ha.
    unfold bind at 1. unfold lift at 1. now rewrite Hp.
  - intros H3 H1 Hs. revert Hp. unfold resize_and_pad.
    destruct (Z.eqb_spec (stride model) 0) as [E|_]; [lia|].
    destruct (zeros _ _ 3) as [z|e'] eqn:Hz.
    + unfold setitem_block.
      destruct (_ && _); [discriminate|]. now intros [= <-].
    + intros [= <-]. now apply zeros_raises in Hz.
  - intros Hs. revert Hp. unfold resize_and_pad. rewrite Hs. simpl.
    now intros [= <-].
Qed.

(** X12. When a row of [pred[0]] has a class index that is no key of
    [names], [inference] raises KeyError: by then the model has been
    called and the copy of the frame made, but [update_tracks] is not
    called, the tracker is in the state of before the frame and the
    caller's frame is as before. *)
Theorem inference_unknown_class (image : loc) (model : Model)
    (names : names_dict) (lw : Z) (w : W) (a p : ndarray) (raw : RawPred)
    (raws : list RawPred) (det : list det_row) (dets : list (list det_row))
    (r : det_row) :
  heap w !! image = Some a ->
  resize_and_pad a (stride model) = Ok p ->
  forward model (model_input to_float_div255 half model p) = Ok (raw :: raws) ->
  non_max_suppression raw (3 # 10) (45 # 100) 100 = det :: dets ->
  r ∈ det -> (forall name, (py_int (row_cls r), name) ∉ names) ->
  exists w',
    do_inference image model names lw w = (Raise KeyError, w') /\
    deepsort w' = deepsort w /\
    trace w' = trace w ++ [EvForward] /\
    heap w' = <[fresh (dom (heap w)) := a]> (heap w) /\
    heap w' !! image = Some a.
Proof.
  intros Ha Hp Hf Hn Hr Hno.
  assert (Hd : detections_of scale_boxes names a p det = Raise KeyError).
  { unfold detections_of. destruct det as [|r0 det'] eqn:Edet;
      [now apply elem_of_nil in Hr|]. rewrite <- Edet in *. simpl negb.
    replace (negb (length det =? 0)) with true by now rewrite Edet.
    unfold collect_detections.
    set (rs := map _ det).
    pose proof (append_detections_spec names (reverse rs) []) as Hspec.
    destruct (append_detections names (reverse rs) []) as [ds|e].
    - exfalso. destruct Hspec as (ds' & _ & Hall).
      assert (Hin : rescale_row scale_boxes (rows p, cols p)
                      (rows a, cols a, chans a) r ∈ reverse rs).
      { apply elem_of_reverse. subst rs. apply list_elem_of_In, in_map.
        now apply list_elem_of_In. }
      apply list_elem_of_lookup in Hin as [i Hi].
      destruct (Forall2_lookup_l _ _ _ _ _ Hall Hi) as (d & _ & Hd).
      unfold detection_of_row in Hd.
      destruct (dict_get names _) as [n|] eqn:Hn'; [|discriminate].
      apply dict_get_ok in Hn'. apply (Hno n).
      unfold rescale_row in Hn'. now destruct (scale_boxes _ _ _) as [[[? ?] ?] ?].
    - now destruct Hspec as [-> _]. }
  unfold inference.
  unfold bind at 1. unfold time_time at 1.
  unfold bind at 1. unfold load at 1. simpl heap. rewrite Ha.
  unfold bind at 1. unfold lift at 1. rewrite Hp.
  unfold bind at 1. unfold emit at 1.
  unfold bind at 1. unfold lift at 1.
  unfold model_input in Hf. rewrite Hf.
  unfold bind at 1. unfold index0 at 1, ret at 1.
  unfold bind at 1. unfold alloc at 1. simpl heap.
  unfold bind at 1. rewrite Hn. unfold index0 at 1, ret at 1.
  unfold bind at 1.
  assert ((if negb (length det =? 0)
           then lift (collect_detections names
                  (map (rescale_row scale_boxes (rows p, cols p)
                          (rows a, cols a, chans a)) det))
           else ret [])
          = lift (TrackerState := TrackerState)
              (detections_of scale_boxes names a p det)) as ->.
  { unfold detections_of. now destruct (negb (length det =? 0)). }
  rewrite Hd. unfold lift at 1.
  eexists. split; [reflexivity|]. simpl.
  split; [reflexivity|]. split; [reflexivity|]. split; [reflexivity|].
  rewrite lookup_insert_ne; [exact Ha|].
  intros Heq. apply (is_fresh (dom (heap w))). rewrite Heq.
  eapply elem_of_dom_2, Ha.
Qed.

(** *** The loop of [run] *)

(** X15. [cv2.waitKey(1) & 0xFF == ord('q')] looks at the low eight bits
    of the key code only: it holds exactly for the codes congruent to
    113 modulo 256, so not for -1 (no key) and also for a [q] that
    comes with flags in the higher bits. *)
Theorem quit_key_low_byte (key : Z) :
  (quit_key key = true <-> (key mod 256 = 113)%Z) /\
  quit_key (-1) = false /\
  forall flags : Z, quit_key (113 + 256 * flags) = true.
Proof.
  assert (H : forall k, Z.land k 255 = (k mod 256)%Z).
  { intros k. change 255%Z with (Z.ones 8). now rewrite Z.land_ones by lia. }
  unfold quit_key. split; [|split].
  - now rewrite H, Z.eqb_eq.
  - reflexivity.
  - intros flags. rewrite H, Z.eqb_eq.
    replace (113 + 256 * flags)%Z with (113 + flags * 256)%Z by lia.
    now rewrite Z.mod_add by lia.
Qed.

(** X16. The loop stops at the first read that fails: whatever the
    capture would deliver after it is never read, so the run is that of
    the frames before it. *)
Theorem run_loop_stops_at_failed_read (model : Model) (names : names_dict)
    (frames : list ndarray) (rest : list (option ndarray)) (keys : list Z)
    (w : W) :
  do_run_loop model names ((Some <$> frames) ++ None :: rest) keys w =
  do_run_loop model names (Some <$> frames) keys w.
Proof.
  revert keys w. induction frames as [|f frames IH]; intros keys w.
  - reflexivity.
  - rewrite fmap_cons. simpl. unfold bind.
    destruct (alloc f w) as [[l|e] w1]; [|reflexivity].
    destruct (do_inference l model names 2 w1) as [[im|e] w2]; [|reflexivity].
    destruct (load im w2) as [[b|e] w3]; [|reflexivity].
    simpl. destruct (quit_key (hd (-1)%Z keys)); [reflexivity|]. apply IH.
Qed.

(** X17. The loop stops after the frame during which [q] was pressed:
    in whatever state the loop has reached, when [inference] returns for
    that frame, the returned array is written and shown and the loop
    ends with nothing else done; and whatever reads and keys would
    follow makes no difference to a run. *)
Theorem run_loop_stops_at_quit_key (model : Model) (names : names_dict)
    (key : Z) :
  quit_key key = true ->
  (forall (f : ndarray) (rest : list (option ndarray)) (keys : list Z)
          (w w2 : W) (im : loc) (b : ndarray),
     do_inference (fresh (dom (heap w))) model names 2
       (set_heap (<[fresh (dom (heap w)) := f]> (heap w)) w) = (Ok im, w2) ->
     heap w2 !! im = Some b ->
     do_run_loop model names (Some f :: rest) (key :: keys) w =
     (Ok tt, set_trace (trace w2 ++ [EvWrite b; EvImshow b]) w2)) /\
  (forall (frames : list ndarray) (f : ndarray)
          (rest : list (option ndarray)) (pre keys : list Z) (w : W),
     length pre = length frames ->
     do_run_loop model names ((Some <$> frames) ++ Some f :: rest)
                 (pre ++ key :: keys) w =
     do_run_loop model names ((Some <$> frames) ++ [Some f])
                 (pre ++ [key]) w).
Proof.
  intros Hq. split.
  - intros f rest keys w w2 im b Hinf Hb. simpl.
    unfold bind at 1. unfold alloc at 1.
    unfold bind at 1. rewrite Hinf.
    unfold bind at 1. unfold load at 1. rewrite Hb.
    unfold bind, emit. simpl. rewrite Hq. unfold ret.
    now rewrite <- app_assoc.
  - intros frames f rest pre keys w Hlen. revert pre Hlen w.
    induction frames as [|f0 frames IH]; intros [|k0 pre] Hlen w;
      try discriminate.
    + simpl. unfold bind.
      destruct (alloc f w) as [[l|e] w1]; [|reflexivity].
      destruct (do_inference l model names 2 w1) as [[im|e] w2];
        [|reflexivity].
      destruct (load im w2) as [[b|e] w3]; [|reflexivity].
      simpl. now rewrite Hq.
    + rewrite fmap_cons. simpl. unfold bind.
      destruct (alloc f0 w) as [[l|e] w1]; [|reflexivity].
      destruct (do_inference l model names 2 w1) as [[im|e] w2];
        [|reflexivity].
      destruct (load im w2) as [[b|e] w3]; [|reflexivity].
      simpl. destruct (quit_key k0); [reflexivity|].
      apply IH. simpl in Hlen. lia.
Qed.

Lemma keeps_run_loop (l : loc) (a : ndarray) (model : Model)
    (names : names_dict) (reads : list (option ndarray)) (keys : list Z) :
  keeps l a (do_run_loop model names reads keys) (fun _ => True).
Proof.
  revert keys. induction reads as [|[f|] reads IH]; intros keys; simpl;
    try apply keeps_emit.
  eapply keeps_bind; [apply keeps_alloc|]. intros frame _.
  eapply keeps_bind; [apply keeps_inference|]. intros im _.
  eapply keeps_bind; [apply keeps_load|]. intros b _.
  eapply keeps_bind; [apply keeps_emit|]. intros _ _.
  eapply keeps_bind; [apply keeps_emit|]. intros _ _.
  destruct (quit_key (hd (-1)%Z keys)); [now apply keeps_ret|apply IH].
Qed.

(** X18. A run changes no array that existed before it, whatever it
    reads and however it ends; in particular a frame is never drawn on
    after it was read, all drawing goes to the copies. *)
Theorem run_keeps_earlier_arrays (l : loc) (a : ndarray) (model : Model)
    (names : names_dict) (is_opened : bool) (reads : list (option ndarray))
    (keys : list Z) (w : W) :
  heap w !! l = Some a ->
  heap (snd (run update_tracks to_float_div255 half non_max_suppression
               scale_boxes colors draw_box_label draw_text format_2f
               model names is_opened reads keys w)) !! l = Some a.
Proof.
  intros Hl. unfold run. destruct is_opened; simpl.
  - now apply (keeps_run_loop l a model names reads keys w).
  - exact Hl.
Qed.

(** *** What one call of [inference] can do at most *)

Lemma box_labels_are_no_update (names : names_dict) (ts : list Track)
    (tail : list event) (ds : list detection) (fr : ndarray) :
  (forall ev, ev ∈ tail -> exists text, ev = EvPutText text) ->
  EvUpdateTracks ds fr ∉ map (box_label_call colors names) ts ++ tail.
Proof.
  intros Htail [Hin|Hin]%elem_of_app.
  - apply list_elem_of_In, in_map_iff in Hin as (t & Ht & _). discriminate.
  - destruct (Htail _ Hin) as [text Ht]. discriminate.
Qed.

(** X19. Whatever a call of [inference] returns or raises, it has
    changed no array but the one copy it may have created, and it has
    called [update_tracks] at most once: either the tracker is in the
    state of before the call and no such call is in the trace, or the
    trace gained the model call followed by one [update_tracks] call on
    the frame's pixels and no other. *)
Theorem inference_effects_are_bounded (image : loc) (model : Model)
    (names : names_dict) (lw : Z) (w : W) :
  let w' := snd (do_inference image model names lw w) in
  (forall l, l <> fresh (dom (heap w)) -> heap w' !! l = heap w !! l) /\
  exists evs,
    trace w' = trace w ++ evs /\
    ((deepsort w' = deepsort w /\
      forall ds fr, EvUpdateTracks ds fr ∉ evs) \/
     (exists a ds rest,
        heap w !! image = Some a /\
        evs = EvForward :: EvUpdateTracks ds a :: rest /\
        (forall ds' fr, EvUpdateTracks ds' fr ∉ rest))).
Proof.
  intros w'. subst w'.
  destruct (do_inference image model names lw w) as [r wX] eqn:Hrun.
  cbn [snd].
  assert (Hnone : forall (w0 : W) (evs : list event),
            (forall ds fr, EvUpdateTracks ds fr ∉ evs) ->
            (forall l, l <> fresh (dom (heap w)) ->
                       heap w0 !! l = heap w !! l) ->
            deepsort w0 = deepsort w -> trace w0 = trace w ++ evs ->
            (forall l, l <> fresh (dom (heap w)) ->
                       heap w0 !! l = heap w !! l) /\
            exists evs0,
              trace w0 = trace w ++ evs0 /\
              ((deepsort w0 = deepsort w /\
                forall ds fr, EvUpdateTracks ds fr ∉ evs0) \/
               (exists a ds rest,
                  heap w !! image = Some a /\
                  evs0 = EvForward :: EvUpdateTracks ds a :: rest /\
                  (forall ds' fr, EvUpdateTracks ds' fr ∉ rest)))).
  { intros w0 evs Hev Hh Hd Ht. split; [exact Hh|]. exists evs. auto. }
  assert (Hnil : forall ds fr, EvUpdateTracks ds fr ∉ @nil event).
  { intros ds fr Hin. now apply elem_of_nil in Hin. }
  assert (Hfwd : forall ds fr, EvUpdateTracks ds fr ∉ [EvForward]).
  { intros ds fr Hin. apply list_elem_of_singleton in Hin. discriminate. }
  destruct (heap w !! image) as [a|] eqn:Ha.
  2: { unfold inference in Hrun. unfold bind at 1 in Hrun.
       unfold time_time at 1 in Hrun. unfold bind at 1 in Hrun.
       unfold load at 1 in Hrun. simpl heap in Hrun. rewrite Ha in Hrun.
       injection Hrun as <- <-. apply (Hnone _ []); auto.
       simpl. now rewrite app_nil_r. }
  destruct (resize_and_pad a (stride model)) as [p|e] eqn:Hp.
  2: { unfold inference in Hrun. unfold bind at 1 in Hrun.
       unfold time_time at 1 in Hrun. unfold bind at 1 in Hrun.
       unfold load at 1 in Hrun. simpl heap in Hrun. rewrite Ha in Hrun.
       unfold bind at 1 in Hrun. unfold lift at 1 in Hrun.
       rewrite Hp in Hrun.
       injection Hrun as <- <-. apply (Hnone _ []); auto.
       simpl. now rewrite app_nil_r. }
  destruct (forward model (model_input to_float_div255 half model p))
    as [out|e] eqn:Hf.
  2: { destruct (inference_forward_raises image model names lw w a p e
                   Ha Hp Hf) as (w1 & Hrun1 & Hd1 & Hh1 & Ht1).
       rewrite Hrun1 in Hrun. injection Hrun as <- <-.
       apply (Hnone _ [EvForward]); auto. intros l _. now rewrite Hh1. }
  unfold model_input in Hf.
  destruct out as [|raw raws].
  { unfold inference in Hrun. unfold bind at 1 in Hrun.
    unfold time_time at 1 in Hrun. unfold bind at 1 in Hrun.
    unfold load at 1 in Hrun. simpl heap in Hrun. rewrite Ha in Hrun.
    unfold bind at 1 in Hrun. unfold lift at 1 in Hrun. rewrite Hp in Hrun.
    unfold bind at 1 in Hrun. unfold emit at 1 in Hrun.
    unfold bind at 1 in Hrun. unfold lift at 1 in Hrun. rewrite Hf in Hrun.
    unfold bind at 1 in Hrun. unfold index0 at 1, raise in Hrun.
    injection Hrun as <- <-. apply (Hnone _ [EvForward]); auto. }
  destruct (non_max_suppression raw (3 # 10) (45 # 100) 100)
    as [|det dets] eqn:Hn.
  { unfold inference in Hrun. unfold bind at 1 in Hrun.
    unfold time_time at 1 in Hrun. unfold bind at 1 in Hrun.
    unfold load at 1 in Hrun. simpl heap in Hrun. rewrite Ha in Hrun.
    unfold bind at 1 in Hrun. unfold lift at 1 in Hrun. rewrite Hp in Hrun.
    unfold bind at 1 in Hrun. unfold emit at 1 in Hrun.
    unfold bind at 1 in Hrun. unfold lift at 1 in Hrun. rewrite Hf in Hrun.
    unfold bind at 1 in Hrun. unfold index0 at 1, ret at 1 in Hrun.
    unfold bind at 1 in Hrun. unfold alloc at 1 in Hrun. simpl heap in Hrun.
    unfold bind at 1 in Hrun. rewrite Hn in Hrun.
    unfold index0 at 1, raise in Hrun.
    injection Hrun as <- <-. apply (Hnone _ [EvForward]); auto.
    intros l Hl. simpl. now rewrite lookup_insert_ne by congruence. }
  destruct (detections_of scale_boxes names a p det) as [ds|e] eqn:Hd.
  2: { unfold inference in Hrun. unfold bind at 1 in Hrun.
       unfold time_time at 1 in Hrun. unfold bind at 1 in Hrun.
       unfold load at 1 in Hrun. simpl heap in Hrun. rewrite Ha in Hrun.
       unfold bind at 1 in Hrun. unfold lift at 1 in Hrun. rewrite Hp in Hrun.
       unfold bind at 1 in Hrun. unfold emit at 1 in Hrun.
       unfold bind at 1 in Hrun. unfold lift at 1 in Hrun. rewrite Hf in Hrun.
       unfold bind at 1 in Hrun. unfold index0 at 1, ret at 1 in Hrun.
       unfold bind at 1 in Hrun. unfold alloc at 1 in Hrun.
       simpl heap in Hrun.
       unfold bind at 1 in Hrun. rewrite Hn in Hrun.
       unfold index0 at 1, ret at 1 in Hrun.
       unfold bind at 1 in Hrun.
       assert ((if negb (length det =? 0)
                then lift (collect_detections names
                       (map (rescale_row scale_boxes (rows p, cols p)
                               (rows a, cols a, chans a)) det))
                else ret [])
               = lift (TrackerState := TrackerState)
                   (detections_of scale_boxes names a p det)) as Hl.
       { unfold detections_of. now destruct (negb (length det =? 0)). }
       rewrite Hl, Hd in Hrun. unfold lift at 1 in Hrun.
       injection Hrun as <- <-. apply (Hnone _ [EvForward]); auto.
       intros l Hl'. simpl. now rewrite lookup_insert_ne by congruence. }
  fold (model_input to_float_div255 half model p) in Hf.
  destruct (inference_run image model names lw w a p raw raws det dets ds
              Ha Hp Hf Hn Hd) as (w1 & Hrun1 & Hd1 & Hh1 & Ht1).
  rewrite Hrun1 in Hrun. injection Hrun as <- <-.
  split; [exact Hh1|]. eexists. split; [exact Ht1|]. right.
  exists a, ds. eexists. split; [reflexivity|]. split; [reflexivity|].
  intros ds' fr. apply box_labels_are_no_update.
  intros ev Hin. destruct (Qeq_bool _ 0).
  - now apply elem_of_nil in Hin.
  - apply list_elem_of_singleton in Hin. eauto.
Qed.

End PipelineFacts.

(** * Further properties of the code *)

(** ** [resize_and_pad]: strides and channels *)

Lemma round_up_negative_stride (n : nat) (s : Z) :
  (s < 0)%Z -> (round_up n s < Z.of_nat n - 1)%Z.
Proof.
  intros Hs. unfold round_up.
  pose proof (Z.div_mod (Z.of_nat n + s - 1) s ltac:(lia)) as Hdm.
  pose proof (Z.mod_neg_bound (Z.of_nat n + s - 1) s Hs) as Hmod.
  lia.
Qed.


(** X1. [resize_and_pad] returns an array for positive strides only: a
    stride of 0 raises ZeroDivisionError and a negative stride raises
    ValueError, whatever the frame. *)
Theorem resize_and_pad_needs_positive_stride (image : ndarray) (stride : Z) :
  (stride <= 0)%Z ->
  resize_and_pad image stride =
  Raise (if (stride =? 0)%Z then ZeroDivisionError else ValueError).
Proof.
  intros Hs. unfold resize_and_pad.
  destruct (Z.eqb_spec stride 0) as [->|Hne]; [reflexivity|].
  assert (Hneg : (stride < 0)%Z) by lia.
  pose proof (round_up_negative_stride (rows image) stride Hneg) as Hh.
  destruct (zeros _ _ 3) as [z|e] eqn:Hz.
  - apply zeros_inv in Hz as (Eh & _ & _ & _ & ->).
    unfold setitem_block, bcast_ok. cbn [rows cols chans zero_array].
    assert (Hmin : Nat.min (rows image) (Z.to_nat (round_up (rows image) stride))
                   = Z.to_nat (round_up (rows image) stride)) by lia.
    rewrite Hmin.
    destruct (Nat.eqb_spec (rows image)
                (Z.to_nat (round_up (rows image) stride))); [lia|].
    destruct (Nat.eqb_spec (rows image) 1); [lia|]. reflexivity.
  - now apply zeros_raises in Hz as ->.
Qed.


(** X3. A frame of one channel is spread over the three channels, as
    long as the padded array is one numpy creates: inside the frame every
    channel of the result is the frame's value, the rest of the result
    is zero, and the extents are rounded up to the stride as for a frame
    of three channels. *)
Theorem resize_and_pad_single_channel (image : ndarray) (stride : Z) :
  well_formed image = true -> chans image = 1 -> (0 < stride)%Z ->
  padded_within_limit image stride ->
  exists out,
    resize_and_pad image stride = Ok out /\
    rows out = Z.to_nat (round_up (rows image) stride) /\
    cols out = Z.to_nat (round_up (cols image) stride) /\
    chans out = 3 /\
    (forall i j k, i < rows image -> j < cols image -> k < 3 ->
                   getpx out i j k = getpx image i j 0) /\
    (forall i j k, i < rows out -> j < cols out -> k < 3 ->
                   ~ (i < rows image /\ j < cols image) ->
                   getpx out i j k = Some zero).
Proof.
  intros Hwf Hc Hs Hfit.
  destruct (round_up_bounds (rows image) stride Hs) as [[Hh _] _].
  destruct (round_up_bounds (cols image) stride Hs) as [[Hw _] _].
  pose proof Hwf as [Hl H]%well_formed_spec.
  unfold resize_and_pad.
  destruct (Z.eqb_spec stride 0) as [->|_]; [lia|].
  rewrite zeros_ok by (exact Hfit || lia). change (Z.to_nat 3) with 3.
  unfold setitem_block, bcast_ok. cbn [rows cols chans zero_array].
  rewrite !Nat.min_l by lia. rewrite !Nat.eqb_refl, Hc. cbn [orb andb Nat.eqb].
  eexists. split; [reflexivity|]. cbn [rows cols chans data].
  split; [reflexivity|]. split; [reflexivity|]. split; [reflexivity|].
  assert (Hb : broadcast_to image (rows image) (cols image) 3 =
               map (fun row => map (stretch 3) row) (data image)).
  { unfold broadcast_to. rewrite stretch_same by (now rewrite length_map).
    clear Hl. induction H as [|row l [Hlen _] _ IH]; [reflexivity|].
    simpl. rewrite IH. f_equal.
    apply stretch_same. now rewrite length_map. }
  rewrite Hb. unfold zero_array. cbn [data]. rewrite Forall_lookup in H. split.
  - intros i j k Hi Hj Hk. unfold getpx. cbn [data].
    rewrite lookup_overlay.
    destruct (lookup_lt_is_Some_2 (data image) i ltac:(lia)) as [row Hrow].
    destruct (H i row Hrow) as [Hlen Hpx].
    destruct (lookup_lt_is_Some_2 row j ltac:(lia)) as [p Hp].
    rewrite Forall_lookup in Hpx. pose proof (Hpx j p Hp) as Hlp.
    rewrite Hc in Hlp.
    destruct p as [|v [|? ?]]; try discriminate.
    assert (Hm : map (fun row => map (stretch 3) row) (data image) !! i
                 = Some (map (stretch 3) row)).
    { clear -Hrow. revert i Hrow.
      induction (data image) as [|x l IH]; intros [|i] Hi; simpl in *;
        try discriminate; [now injection Hi as ->|now apply IH]. }
    rewrite Hm, lookup_replicate_2 by lia. rewrite lookup_overlay.
    assert (Hm' : map (stretch 3) row !! j = Some [v; v; v]).
    { clear -Hp. revert j Hp.
      induction row as [|x l IH]; intros [|j] Hj; simpl in *;
        try discriminate; [now injection Hj as ->|now apply IH]. }
    rewrite Hm', lookup_replicate_2, Hrow, Hp by lia.
    destruct k as [|[|[|k]]]; [reflexivity..|lia].
  - intros i j k Hi Hj Hk Hout. unfold getpx. cbn [data].
    rewrite lookup_overlay, (lookup_replicate_2 _ _ i) by lia.
    destruct (map _ (data image) !! i) as [row'|] eqn:Hrow'.
    + assert (Hin : i < rows image /\ length row' = cols image).
      { rewrite <- Hl. clear -Hrow' H. revert i Hrow' H.
        induction (data image) as [|x l IH]; intros [|i] Hi H; simpl in *;
          try discriminate.
        - injection Hi as <-. rewrite length_map. split; [lia|].
          now destruct (H 0 x eq_refl).
        - destruct (IH i Hi) as [? ?]; [|split; [lia|assumption]].
          intros i' x' Hx'. now apply (H (S i')). }
      destruct Hin as [Hi' Hlen'].
      rewrite lookup_overlay, (lookup_ge_None_2 row' j) by lia.
      rewrite lookup_replicate_2 by lia.
      destruct k as [|[|[|k]]]; [reflexivity..|lia].
    + rewrite lookup_replicate_2 by lia.
      destruct k as [|[|[|k]]]; [reflexivity..|lia].
Qed.

(** ** The tensor layout (line 34) *)

Lemma lookup_map {A B} (f : A -> B) (l : list A) (i : nat) :
  map f l !! i = f <$> (l !! i).
Proof.
  revert i; induction l as [|x l IH]; intros [|i]; simpl; auto.
Qed.

Lemma chw_length (a : ndarray) : length (bgr_to_rgb_chw a) = chans a.
Proof.
  unfold bgr_to_rgb_chw. now rewrite length_map, length_reverse, length_seq.
Qed.

Lemma chw_plane_extents (a : ndarray) (c : nat) (plane : list (list uint8)) :
  well_formed a = true -> bgr_to_rgb_chw a !! c = Some plane ->
  length plane = rows a /\ Forall (fun line => length line = cols a) plane.
Proof.
  intros [Hl H]%well_formed_spec Hc. unfold bgr_to_rgb_chw in Hc.
  rewrite lookup_map in Hc.
  destruct (reverse (seq 0 (chans a)) !! c) as [k|]; [|discriminate].
  injection Hc as <-. unfold channel_plane.
  rewrite length_map. split; [exact Hl|].
  apply Forall_forall. intros line Hline.
  apply list_elem_of_In, in_map_iff in Hline as (row & <- & Hrow).
  rewrite length_map. rewrite Forall_forall in H.
  now apply (H row), list_elem_of_In.
Qed.

Lemma chw_entry (a : ndarray) (c i j : nat) :
  well_formed a = true -> c < chans a -> i < rows a -> j < cols a ->
  exists plane line v,
    bgr_to_rgb_chw a !! c = Some plane /\ plane !! i = Some line /\
    line !! j = Some v /\ getpx a i j (chans a - 1 - c) = Some v.
Proof.
  intros [Hl H]%well_formed_spec Hc Hi Hj. unfold bgr_to_rgb_chw.
  assert (Hk : reverse (seq 0 (chans a)) !! c = Some (chans a - 1 - c)).
  { rewrite list.reverse_lookup by (rewrite length_seq; lia).
    rewrite length_seq. rewrite lookup_seq_lt by lia. f_equal. lia. }
  destruct (lookup_lt_is_Some_2 (data a) i ltac:(lia)) as [row Hrow].
  rewrite Forall_lookup in H. destruct (H i row Hrow) as [Hlen Hpx].
  destruct (lookup_lt_is_Some_2 row j ltac:(lia)) as [p Hp].
  rewrite Forall_lookup in Hpx. pose proof (Hpx j p Hp) as Hlp.
  destruct (lookup_lt_is_Some_2 p (chans a - 1 - c) ltac:(lia)) as [v Hv].
  exists (channel_plane a (chans a - 1 - c)),
         (map (fun px => default zero (px !! (chans a - 1 - c))) row), v.
  split; [now rewrite lookup_map, Hk|]. unfold channel_plane.
  split; [now rewrite lookup_map, Hrow|].
  split; [now rewrite lookup_map, Hp; simpl; rewrite Hv|].
  unfold getpx. now rewrite Hrow, Hp.
Qed.

(** X4. [padded_image[..., ::-1].transpose(2, 0, 1)] on a well-formed
    array has one plane per channel, each of the extents of the array,
    and the entry [(c, i, j)] is the entry [(i, j, C - 1 - c)] of the
    array, [C] being its number of channels: channels are reversed and
    moved to the front, nothing else changes. *)
Theorem bgr_to_rgb_chw_layout (a : ndarray) :
  well_formed a = true ->
  length (bgr_to_rgb_chw a) = chans a /\
  (forall c plane, bgr_to_rgb_chw a !! c = Some plane ->
     length plane = rows a /\ Forall (fun line => length line = cols a) plane) /\
  (forall c i j, c < chans a -> i < rows a -> j < cols a ->
     exists plane line v,
       bgr_to_rgb_chw a !! c = Some plane /\ plane !! i = Some line /\
       line !! j = Some v /\ getpx a i j (chans a - 1 - c) = Some v).
Proof.
  intros Hwf. split; [apply chw_length|]. split.
  - intros c plane Hc. now apply (chw_plane_extents a c).
  - intros c i j Hc Hi Hj. now apply chw_entry.
Qed.

(** X5. The planes [inference] feeds the model with, for a frame of
    three channels in BGR order, a positive stride and a padded array
    that numpy creates: three planes whose
    extents are the frame's rounded up to the stride; plane [c] holds
    channel [2 - c] of the frame (red first) inside the frame and zero in
    the padding. *)
Theorem model_planes_are_padded_rgb (image : ndarray) (stride : Z) :
  well_formed image = true -> chans image = 3 -> (0 < stride)%Z ->
  padded_within_limit image stride ->
  exists p,
    resize_and_pad image stride = Ok p /\
    length (bgr_to_rgb_chw p) = 3 /\
    (stride | Z.of_nat (rows p))%Z /\ (stride | Z.of_nat (cols p))%Z /\
    forall c i j, c < 3 -> i < rows p -> j < cols p ->
      exists plane line v,
        bgr_to_rgb_chw p !! c = Some plane /\ length plane = rows p /\
        plane !! i = Some line /\ length line = cols p /\
        line !! j = Some v /\
        Some v = if decide (i < rows image /\ j < cols image)
                 then getpx image i j (2 - c) else Some zero.
Proof.
  intros Hwf Hc Hs Hfit. exists (padded image stride).
  pose proof (padded_well_formed image stride Hwf Hc) as Hwfp.
  destruct (round_up_bounds (rows image) stride Hs) as [[Hh _] Hdh].
  destruct (round_up_bounds (cols image) stride Hs) as [[Hw _] Hdw].
  split; [now apply resize_and_pad_ok|].
  split; [apply chw_length|].
  split; [simpl; now rewrite Z2Nat.id by lia|].
  split; [simpl; now rewrite Z2Nat.id by lia|].
  intros c i j Hc3 Hi Hj.
  destruct (chw_entry (padded image stride) c i j Hwfp Hc3 Hi Hj)
    as (plane & line & v & Hp & Hl & Hv & Hg).
  destruct (chw_plane_extents _ c plane Hwfp Hp) as [Hpl Hall].
  exists plane, line, v. split; [exact Hp|]. split; [exact Hpl|].
  split; [exact Hl|].
  split; [rewrite Forall_lookup in Hall; now apply (Hall i)|].
  split; [exact Hv|]. rewrite <- Hg. cbn [chans padded].
  replace (3 - 1 - c) with (2 - c) by lia.
  destruct (decide (i < rows image /\ j < cols image)) as [[Hi' Hj']|Hout].
  - now apply padded_inside.
  - apply padded_outside; try assumption. lia.
Qed.

(** ** The tuples for the tracker: unknown classes and sizes *)

(** X6. The loop over [reversed(det)] either builds one tuple per row, in
    reverse order, each with the corners truncated toward zero, the
    confidence of its row and the name [names] has for its class index;
    or it raises KeyError, and then some row has a class index that is no
    key of [names]. *)
Theorem collect_detections_or_key_error (names : names_dict)
    (det : list det_row) :
  match collect_detections names det with
  | Ok ds =>
      length ds = length det /\
      Forall2
        (fun r d =>
           exists name,
             (py_int (row_cls r), name) ∈ names /\
             d = ([py_int (row_x1 r); py_int (row_y1 r);
                   py_int (row_x2 r) - py_int (row_x1 r);
                   py_int (row_y2 r) - py_int (row_y1 r)]%Z,
                  row_conf r, name))
        (reverse det) ds
  | Raise e =>
      e = KeyError /\
      exists r, r ∈ det /\ forall name, (py_int (row_cls r), name) ∉ names
  end.
Proof.
  unfold collect_detections.
  pose proof (append_detections_spec names (reverse det) []) as H.
  destruct (append_detections names (reverse det) []) as [ds|e].
  - destruct H as (ds' & -> & Hds). simpl. split.
    + apply Forall2_length in Hds. now rewrite length_reverse in Hds.
    + eapply Forall2_impl; [exact Hds|]. intros r d Hd.
      unfold detection_of_row in Hd.
      destruct (dict_get names (py_int (row_cls r))) as [n|] eqn:Hn;
        [|discriminate].
      injection Hd as <-. exists n. split; [now apply dict_get_ok|reflexivity].
  - destruct H as (-> & r & Hr & Hno). split; [reflexivity|].
    exists r. split; [now apply elem_of_reverse|exact Hno].
Qed.

Lemma py_int_mono (q1 q2 : Q) : (q1 <= q2)%Q -> (py_int q1 <= py_int q2)%Z.
Proof.
  unfold Qle, py_int. destruct q1 as [n1 d1], q2 as [n2 d2]. simpl. intros H.
  rewrite <- (Z.quot_mul_cancel_r n1 (Z.pos d1) (Z.pos d2)) by lia.
  rewrite <- (Z.quot_mul_cancel_r n2 (Z.pos d2) (Z.pos d1)) by lia.
  rewrite (Z.mul_comm (Z.pos d2) (Z.pos d1)).
  apply Z.quot_le_mono; lia.
Qed.

(** X7. A row whose corners are ordered, [x1 <= x2] and [y1 <= y2],
    gives a box of non-negative width and height, although each corner
    is truncated on its own. *)
Theorem detection_sizes_nonnegative (names : names_dict) (r : det_row)
    (d : detection) :
  detection_of_row names r = Ok d ->
  (row_x1 r <= row_x2 r)%Q -> (row_y1 r <= row_y2 r)%Q ->
  exists x y w h, fst (fst d) = [x; y; w; h] /\ (0 <= w)%Z /\ (0 <= h)%Z.
Proof.
  intros Hd Hx Hy. unfold detection_of_row in Hd.
  destruct (dict_get names (py_int (row_cls r))); [|discriminate].
  injection Hd as <-. simpl. do 4 eexists. split; [reflexivity|].
  apply py_int_mono in Hx, Hy. lia.
Qed.

(** ** Class names and class indices (lines 58 and 73) *)

Lemma reverse_lookup_found (names : names_dict) (v : string) :
  v ∈ names.*2 ->
  exists j, names !! j = Some (reverse_lookup names v, v).
Proof.
  intros Hv. unfold reverse_lookup.
  destruct (list_find _ names) as [[j [k v']]|] eqn:E.
  - apply list_find_Some in E as (Hj & Hs & _). simpl in Hs. subst v'. eauto.
  - apply list_find_None in E. rewrite Forall_forall in E.
    apply list_elem_of_fmap in Hv as ([k v'] & -> & Hin).
    now destruct (E _ Hin).
Qed.

(** X8. In a dict (keys pairwise different) the index found for a class
    name by the search of line 73 leads back to that name:
    [names[reverse_lookup(names, v)] = v] for every value [v]. *)
Theorem dict_get_reverse_lookup (names : names_dict) (v : string) :
  NoDup names.*1 -> v ∈ names.*2 ->
  dict_get names (reverse_lookup names v) = Ok v.
Proof.
  intros Hnd Hv. destruct (reverse_lookup_found names v Hv) as [j Hj].
  unfold dict_get.
  destruct (list_find _ names) as [[i [k v']]|] eqn:E.
  - apply list_find_Some in E as (Hi & Hk & _). simpl in Hk. subst k.
    assert (i = j) as ->.
    { unfold names_dict in *.
      eapply NoDup_lookup; [exact Hnd| |];
        rewrite list_lookup_fmap; [rewrite Hi|rewrite Hj]; reflexivity. }
    unfold names_dict in *. rewrite Hi in Hj. now injection Hj as ->.
  - apply list_find_None in E. rewrite Forall_forall in E.
    exfalso. eapply (E _ (list_elem_of_lookup_2 _ _ _ Hj)). reflexivity.
Qed.

(** X9. When the class names are pairwise different, the search of
    line 73 returns the class index the name was looked up with in
    line 58, so a track is drawn in the palette colour of its
    detection's class; a name that is no value of [names] gets index 0,
    the colour of the first class. *)
Theorem reverse_lookup_dict_get (names : names_dict) (k : Z) (v : string) :
  (NoDup names.*2 -> dict_get names k = Ok v -> reverse_lookup names v = k) /\
  (v ∉ names.*2 -> reverse_lookup names v = 0%Z).
Proof.
  split.
  - intros Hnd Hk. unfold dict_get in Hk.
    destruct (list_find _ names) as [[i [k' v']]|] eqn:E; [|discriminate].
    injection Hk as ->. apply list_find_Some in E as (Hi & Hk & _).
    simpl in Hk. subst k'.
    destruct (reverse_lookup_found names v) as [j Hj].
    { apply list_elem_of_fmap. exists (k, v).
      split; [reflexivity|eapply list_elem_of_lookup_2, Hi]. }
    assert (i = j) as ->.
    { unfold names_dict in *.
      eapply NoDup_lookup; [exact Hnd| |];
        rewrite list_lookup_fmap; [rewrite Hi|rewrite Hj]; reflexivity. }
    unfold names_dict in *. rewrite Hi in Hj. now injection Hj.
  - intros Hv. unfold reverse_lookup.
    destruct (list_find _ names) as [[j [k' v']]|] eqn:E; [|reflexivity].
    apply list_find_Some in E as (Hj & Hs & _). simpl in Hs. subst v'.
    exfalso. apply Hv, list_elem_of_fmap. exists (k', v).
    split; [reflexivity|eapply list_elem_of_lookup_2, Hj].
Qed.

(** ** Rounding the rescaled corners (lines 54 and 57) *)

Section Rounding.

Local Open Scope Q_scope.

Local Ltac qz :=
  repeat rewrite inject_Z_plus in *; repeat rewrite inject_Z_mult in *;
  change (inject_Z 1) with 1 in *; change (inject_Z 2) with 2 in *.

Lemma floor_twice (q : Q) :
  (Qfloor (2 * q) = 2 * Qfloor q \/ Qfloor (2 * q) = 2 * Qfloor q + 1)%Z.
Proof.
  pose proof (Qfloor_le q) as H1. pose proof (Qlt_floor q) as H2.
  pose proof (Qfloor_le (2 * q)) as H3. pose proof (Qlt_floor (2 * q)) as H4.
  assert (A : inject_Z (2 * Qfloor q) < inject_Z (Qfloor (2 * q) + 1)).
  { qz. lra. }
  assert (B : inject_Z (Qfloor (2 * q)) < inject_Z (2 * Qfloor q + 2)).
  { qz. lra. }
  rewrite <- Zlt_Qlt in A, B. lia.
Qed.

Lemma torch_round_bounds (q : Q) :
  exists z, torch_round q = inject_Z z /\
    inject_Z z - (1 # 2) <= q /\ q <= inject_Z z + (1 # 2).
Proof.
  pose proof (Qfloor_le q) as H1. pose proof (Qlt_floor q) as H2.
  pose proof (Qfloor_le (2 * q)) as H3. pose proof (Qlt_floor (2 * q)) as H4.
  unfold torch_round.
  destruct (floor_twice q) as [E|E]; rewrite E in *.
  - rewrite Z.eqb_refl. eexists. split; [reflexivity|]. split; qz; lra.
  - destruct (Z.eqb_spec (2 * Qfloor q + 1) (2 * Qfloor q)) as [?|_]; [lia|].
    destruct (Qeq_bool (2 * q) (inject_Z (2 * Qfloor q + 1)) &&
              Z.even (Qfloor q)) eqn:Et.
    + apply andb_true_iff in Et as [Et _]. apply Qeq_bool_iff in Et.
      eexists. split; [reflexivity|]. split; qz; lra.
    + eexists. split; [reflexivity|]. split; qz; lra.
Qed.

(** X13. [torch_round] returns an integer at distance at most one half
    from its argument, and at a tie, when twice the argument is an odd
    integer, the even one of the two neighbours. *)
Theorem torch_round_nearest_even (q : Q) :
  exists z, torch_round q = inject_Z z /\
    inject_Z z - (1 # 2) <= q /\ q <= inject_Z z + (1 # 2) /\
    ((exists m, 2 * q == inject_Z (2 * m + 1)) -> Z.even z = true).
Proof.
  destruct (torch_round_bounds q) as (z & Hz & Hlo & Hhi).
  exists z. split; [exact Hz|]. split; [exact Hlo|]. split; [exact Hhi|].
  intros [m Hm].
  assert (Hfl : (Qfloor (2 * q) = 2 * m + 1)%Z).
  { rewrite Hm. apply Qfloor_Z. }
  revert Hz. unfold torch_round.
  destruct (floor_twice q) as [E|E]; [lia|].
  assert (Hf : Qfloor q = m) by lia.
  destruct (Z.eqb_spec (Qfloor (2 * q)) (2 * Qfloor q)) as [?|_]; [lia|].
  assert (Ht : Qeq_bool (2 * q) (inject_Z (Qfloor (2 * q))) = true).
  { apply Qeq_bool_iff. rewrite Hfl. exact Hm. }
  rewrite Ht. simpl andb.
  destruct (Z.even (Qfloor q)) eqn:Ev; intros Hz.
  - apply (f_equal Qnum) in Hz. simpl in Hz. now rewrite <- Hz.
  - apply (f_equal Qnum) in Hz. simpl in Hz. rewrite <- Hz.
    now rewrite Z.even_add, Ev.
Qed.

(** X14. The box handed to the tracker for a row of [pred[0]] has its
    corners within half a pixel of the corners [scale_boxes] returned:
    [int] after [round] changes nothing any more, and the width and
    height are the differences of the rounded corners. *)
Theorem rescaled_box_within_half_pixel
    (scale_boxes : nat * nat -> Q * Q * Q * Q -> nat * nat * nat ->
                   Q * Q * Q * Q)
    (names : names_dict) (hw : nat * nat) (shape : nat * nat * nat)
    (r : det_row) (d : detection) (c1 c2 c3 c4 : Q) :
  scale_boxes hw (row_x1 r, row_y1 r, row_x2 r, row_y2 r) shape
    = (c1, c2, c3, c4) ->
  detection_of_row names (rescale_row scale_boxes hw shape r) = Ok d ->
  exists x1 y1 x2 y2 : Z,
    fst (fst d) = [x1; y1; x2 - x1; y2 - y1]%Z /\
    (inject_Z x1 - (1 # 2) <= c1 /\ c1 <= inject_Z x1 + (1 # 2)) /\
    (inject_Z y1 - (1 # 2) <= c2 /\ c2 <= inject_Z y1 + (1 # 2)) /\
    (inject_Z x2 - (1 # 2) <= c3 /\ c3 <= inject_Z x2 + (1 # 2)) /\
    (inject_Z y2 - (1 # 2) <= c4 /\ c4 <= inject_Z y2 + (1 # 2)) /\
    snd (fst d) = row_conf r.
Proof.
  intros Hsc Hd. unfold rescale_row in Hd. rewrite Hsc in Hd.
  unfold detection_of_row in Hd. cbn [row_x1 row_y1 row_x2 row_y2 row_cls
                                      row_conf] in Hd.
  destruct (dict_get names (py_int (row_cls r))); [|discriminate].
  injection Hd as <-.
  destruct (torch_round_bounds c1) as (z1 & E1 & L1 & U1).
  destruct (torch_round_bounds c2) as (z2 & E2 & L2 & U2).
  destruct (torch_round_bounds c3) as (z3 & E3 & L3 & U3).
  destruct (torch_round_bounds c4) as (z4 & E4 & L4 & U4).
  rewrite E1, E2, E3, E4.
  rewrite !(py_int_integer (inject_Z _) _ (Qeq_refl _)).
  exists z1, z2, z3, z4. cbn [fst snd].
  split; [reflexivity|]. repeat split; assumption.
Qed.

End Rounding.

(** * Examples *)

(** The side condition on the size of a concrete array. *)
Ltac within_limit :=
  unfold padded_within_limit, within_numpy_limit; vm_compute; discriminate.

(** ** The stand-in engine partitions tracks and detections *)

Lemma zip_fst_drop {A B} (l : list A) (k : list B) :
  (fst <$> zip l k) ++ drop (length k) l = l.
Proof.
  revert k; induction l as [|x l IH]; intros [|y k]; simpl; try reflexivity.
  now rewrite IH.
Qed.

Lemma zip_snd_drop {A B} (l : list A) (k : list B) :
  (snd <$> zip l k) ++ drop (length l) k = k.
Proof.
  revert k; induction l as [|x l IH]; intros [|y k]; simpl; try reflexivity.
  now rewrite IH.
Qed.

Lemma demo_associate_partitions : DeepSort.partitions Demo.associate.
Proof.
  intros ts ds a. subst a. unfold Demo.associate. simpl.
  rewrite zip_fst_drop, zip_snd_drop. split; reflexivity.
Qed.

(** ** The functions on concrete frames *)

Example resize_and_pad_2x3 :
  resize_and_pad frame_2x3 4 =
  Ok {| rows := 4; cols := 4; chans := 3;
        data := [ [px 1 2 3; px 4 5 6; px 7 8 9; px 0 0 0];
                  [px 10 11 12; px 13 14 15; px 16 17 18; px 0 0 0];
                  [px 0 0 0; px 0 0 0; px 0 0 0; px 0 0 0];
                  [px 0 0 0; px 0 0 0; px 0 0 0; px 0 0 0] ] |}.
Proof. reflexivity. Qed.

Example resize_and_pad_stride_0 :
  resize_and_pad frame_2x3 0 = Raise ZeroDivisionError.
Proof. reflexivity. Qed.

Example resize_and_pad_negative_stride :
  resize_and_pad frame_2x3 (-4) = Raise ValueError.
Proof. reflexivity. Qed.

Example post_filter_candidates :
  Nms.post_filter Demo.candidates (3 # 10) (45 # 100) 100 =
  [ Demo.row 0 0 10 10 (9 # 10) 0; Demo.row 20 20 30 40 (7 # 10) 2 ].
Proof. reflexivity. Qed.

Example collect_detections_candidates :
  collect_detections Demo.names
    [ Demo.row 0 0 10 10 (9 # 10) 0; Demo.row 20 20 30 40 (7 # 10) 2 ] =
  Ok Demo.detections2.
Proof. reflexivity. Qed.

Example inference_first_frame :
  let '(r, w) := Demo.inference 0 Demo.model_seeing Demo.names 2 Demo.world0 in
  r = Ok 1 /\
  trace w = [EvForward; EvUpdateTracks Demo.detections2 frame_2x3;
             EvPutText "FPS: 1.00"] /\
  DeepSort.next_id (deepsort w) = 3.
Proof. vm_compute. auto. Qed.

(** ** Instances of the theorems *)

Lemma annotate_tracks_confirmed_updated_witness :
  is_Some (heap Demo.world0 !! 0) /\
  exists w',
    annotate_tracks Demo.colors Demo.draw_box_label Demo.names 0 2
      [Demo.confirmed_track; Demo.tentative_track; Demo.stale_track]
      Demo.world0 = (Ok tt, w') /\
    trace w' = [box_label_call Demo.colors Demo.names Demo.confirmed_track].
Proof.
  assert (H : is_Some (heap Demo.world0 !! 0)).
  { exists frame_2x3. apply lookup_singleton_eq. }
  split; [exact H|].
  exact (annotate_tracks_confirmed_updated Demo.colors Demo.draw_box_label
           Demo.names 0 2
           [Demo.confirmed_track; Demo.tentative_track; Demo.stale_track]
           Demo.world0 H).
Defined.



Lemma detections_are_xywh_conf_class_witness :
  (exists ds,
     collect_detections Demo.names
       [ Demo.row 0 0 10 10 (9 # 10) 0; Demo.row 20 20 30 40 (7 # 10) 2 ]
       = Ok ds /\
     Forall2 (is_tracker_tuple Demo.names)
       (reverse [ Demo.row 0 0 10 10 (9 # 10) 0;
                  Demo.row 20 20 30 40 (7 # 10) 2 ]) ds) /\
  (exists ds r w',
     Demo.inference 0 Demo.model_seeing Demo.names 2 Demo.world0 = (r, w') /\
     EvUpdateTracks ds frame_2x3 ∈ trace w' /\
     Forall2 (is_tracker_tuple Demo.names)
       (reverse
          (map (rescale_row Demo.scale_boxes (4, 4) (2, 3, 3))
               (Nms.post_filter Demo.candidates (3 # 10) (45 # 100) 100)))
       ds).
Proof.
  destruct (detections_are_xywh_conf_class
              Demo.update_tracks Demo.to_float_div255 Demo.half
              Nms.non_max_suppression Demo.scale_boxes Demo.colors
              Demo.draw_box_label Demo.draw_text Demo.format_2f Demo.names)
    as [Hrows Hinf].
  split.
  - apply Hrows. repeat constructor.
    + exists ([0; 0; 10; 10]%Z, 9 # 10, "person").
      exists 0%Z, 0%Z, 10%Z, 10%Z, "person". now repeat split.
    + exists ([20; 20; 10; 20]%Z, 7 # 10, "car").
      exists 20%Z, 20%Z, 30%Z, 40%Z, "car". now repeat split.
  - apply (Hinf 0 Demo.model_seeing 2%Z Demo.world0 frame_2x3
             (padded frame_2x3 4) Demo.candidates []
             (Nms.post_filter Demo.candidates (3 # 10) (45 # 100) 100) []
             (lookup_singleton_eq 0 frame_2x3) eq_refl eq_refl eq_refl).
    repeat constructor.
Defined.

Lemma detector_failure_is_fatal_witness :
  (exists w',
     Demo.inference 0 Demo.model_down Demo.names 2 Demo.world0 =
       (Raise (ExternalError "backend unavailable"), w') /\
     deepsort w' = DeepSort.empty_store /\
     trace w' = [EvForward]) /\
  (exists w',
     Demo.run_loop Demo.model_down Demo.names
       [Some frame_2x3; Some frame_2x3] [] Demo.world0 =
       (Raise (ExternalError "backend unavailable"), w') /\
     deepsort w' = DeepSort.empty_store /\
     trace w' = [EvForward]).
Proof.
  destruct (detector_failure_is_fatal
              Demo.update_tracks Demo.to_float_div255 Demo.half
              Nms.non_max_suppression Demo.scale_boxes Demo.colors
              Demo.draw_box_label Demo.draw_text Demo.format_2f
              Demo.model_down Demo.names frame_2x3 (padded frame_2x3 4)
              (ExternalError "backend unavailable") eq_refl eq_refl)
    as [Hinf Hrun].
  split.
  - apply (Hinf 0 2%Z Demo.world0). apply lookup_singleton_eq.
  - apply (Hrun [Some frame_2x3] [] Demo.world0).
Defined.

Lemma no_detections_is_valid_witness :
  (exists w',
     Demo.inference 0 Demo.model_blind Demo.names 2 Demo.world0 =
       (Ok (fresh (dom (heap Demo.world0))), w') /\
     deepsort w' = DeepSort.empty_store /\
     EvUpdateTracks [] frame_2x3 ∈ trace w') /\
  DeepSort.update_tracks Demo.cfg Demo.associate
    {| DeepSort.next_id := 4;
       DeepSort.tracks := [Demo.confirmed_track; Demo.stale_track] |}
    [] frame_2x3 =
  (let ts := filter DeepSort.alive
               (DeepSort.on_miss Demo.cfg <$>
                  [Demo.confirmed_track; Demo.stale_track]) in
   ({| DeepSort.next_id := 4; DeepSort.tracks := ts |}, ts)).
Proof.
  destruct (no_detections_is_valid
              Demo.update_tracks Demo.to_float_div255 Demo.half
              Nms.non_max_suppression Demo.scale_boxes Demo.colors
              Demo.draw_box_label Demo.draw_text Demo.format_2f
              0 Demo.model_blind Demo.names 2%Z Demo.world0
              frame_2x3 (padded frame_2x3 4) [] [] []
              (lookup_singleton_eq 0 frame_2x3) eq_refl eq_refl eq_refl)
    as [Hinf Htr].
  split.
  - exact Hinf.
  - exact (Htr Demo.cfg Demo.associate
             {| DeepSort.next_id := 4;
                DeepSort.tracks := [Demo.confirmed_track; Demo.stale_track] |}
             frame_2x3 demo_associate_partitions).
Defined.

Lemma track_identifiers_are_unique_witness :
  let st1 := fst (DeepSort.cycle Demo.cfg Demo.associate
                    DeepSort.empty_store Demo.detections2) in
  let log1 := [] ++ snd (DeepSort.cycle Demo.cfg Demo.associate
                           DeepSort.empty_store Demo.detections2) in
  DeepSort.reachable Demo.cfg Demo.associate st1 log1 /\
  NoDup (track_id <$> log1) /\
  NoDup (track_id <$> DeepSort.tracks st1).
Proof.
  intros st1 log1.
  assert (H : DeepSort.reachable Demo.cfg Demo.associate st1 log1).
  { apply DeepSort.reach_cycle, DeepSort.reach_init. }
  split; [exact H|].
  destruct (track_identifiers_are_unique Demo.cfg Demo.associate st1 log1 H)
    as (Hlog & Hst & _).
  split; [exact Hlog|exact Hst].
Defined.

Lemma inference_keeps_input_frame_witness :
  heap Demo.world0 !! 0 = Some frame_2x3 /\
  heap (snd (Demo.inference 0 Demo.model_seeing Demo.names 2 Demo.world0))
    !! 0 = Some frame_2x3.
Proof.
  split; [apply lookup_singleton_eq|].
  apply (inference_keeps_input_frame
           Demo.update_tracks Demo.to_float_div255 Demo.half
           Nms.non_max_suppression Demo.scale_boxes Demo.colors
           Demo.draw_box_label Demo.draw_text Demo.format_2f
           0 Demo.model_seeing Demo.names 2%Z Demo.world0
           (snd (Demo.inference 0 Demo.model_seeing Demo.names 2 Demo.world0))
           frame_2x3
           (fst (Demo.inference 0 Demo.model_seeing Demo.names 2 Demo.world0))).
  - apply lookup_singleton_eq.
  - apply surjective_pairing.
Defined.

Lemma post_filter_is_greedy_nms_witness :
  Nms.post_filter Demo.candidates (3 # 10) (45 # 100) 100 =
    [ Demo.row 0 0 10 10 (9 # 10) 0; Demo.row 20 20 30 40 (7 # 10) 2 ] /\
  Nms.post_filter Demo.hi_mid_lo (3 # 10) (45 # 100) 1 =
    [ Demo.row 0 0 10 10 (9 # 10) 0 ] /\
  Nms.post_filter Demo.tied (3 # 10) (45 # 100) 2 =
    [ Demo.row 0 0 10 10 (9 # 10) 0; Demo.row 20 20 30 30 (9 # 10) 1 ].
Proof.
  split; [|split].
  - destruct (post_filter_is_greedy_nms Demo.candidates (3 # 10) (45 # 100) 100)
      as (_ & Hscan & _).
    rewrite Hscan. vm_compute. reflexivity.
  - destruct (post_filter_is_greedy_nms Demo.hi_mid_lo (3 # 10) (45 # 100) 1)
      as (_ & Hscan & _).
    rewrite Hscan. vm_compute. reflexivity.
  - destruct (post_filter_is_greedy_nms Demo.tied (3 # 10) (45 # 100) 2)
      as (_ & Hscan & _).
    rewrite Hscan. vm_compute. reflexivity.
Defined.

(** ** Instances of the further properties *)

Lemma resize_and_pad_needs_positive_stride_witness :
  resize_and_pad frame_2x3 0 = Raise ZeroDivisionError /\
  resize_and_pad frame_2x3 (-32) = Raise ValueError.
Proof.
  split.
  - exact (resize_and_pad_needs_positive_stride frame_2x3 0 ltac:(lia)).
  - exact (resize_and_pad_needs_positive_stride frame_2x3 (-32) ltac:(lia)).
Defined.


Lemma resize_and_pad_single_channel_witness :
  exists out,
    resize_and_pad frame_gray 4 = Ok out /\
    rows out = 4 /\ cols out = 4 /\ chans out = 3 /\
    getpx out 1 0 2 = Some Byte.x1e /\ getpx out 3 3 0 = Some zero.
Proof.
  destruct (resize_and_pad_single_channel frame_gray 4 eq_refl eq_refl
              ltac:(lia) ltac:(within_limit))
    as (out & Hout & Hr & Hc & Hch & Hin & Hpad).
  exists out. split; [exact Hout|]. split; [exact Hr|]. split; [exact Hc|].
  split; [exact Hch|]. split.
  - apply (Hin 1 0 2); simpl; lia.
  - change (rows out = 4) in Hr. change (cols out = 4) in Hc.
    apply (Hpad 3 3 0); rewrite ?Hr, ?Hc; simpl; lia.
Defined.

Lemma bgr_to_rgb_chw_layout_witness :
  length (bgr_to_rgb_chw frame_2x3) = 3 /\
  exists plane line v,
    bgr_to_rgb_chw frame_2x3 !! 0 = Some plane /\ plane !! 1 = Some line /\
    line !! 2 = Some v /\ getpx frame_2x3 1 2 2 = Some v.
Proof.
  destruct (bgr_to_rgb_chw_layout frame_2x3 eq_refl) as (Hlen & _ & Hent).
  split; [exact Hlen|].
  apply (Hent 0 1 2); simpl; lia.
Defined.

Lemma model_planes_are_padded_rgb_witness :
  exists p,
    resize_and_pad frame_2x3 4 = Ok p /\
    length (bgr_to_rgb_chw p) = 3 /\
    (4 | Z.of_nat (rows p))%Z /\ (4 | Z.of_nat (cols p))%Z.
Proof.
  destruct (model_planes_are_padded_rgb frame_2x3 4 eq_refl eq_refl ltac:(lia)
              ltac:(within_limit))
    as (p & Hp & Hlen & Hr & Hc & _).
  exists p. auto.
Defined.

Lemma detection_sizes_nonnegative_witness :
  exists x y w h,
    detection_of_row Demo.names loose_row
      = Ok ([x; y; w; h]%Z, 9 # 10, "person") /\ (0 <= w)%Z /\ (0 <= h)%Z.
Proof.
  destruct (detection_sizes_nonnegative Demo.names loose_row
              ([3; 5; 7; 5]%Z, 9 # 10, "person") eq_refl)
    as (x & y & w & h & Hb & Hw & Hh).
  - unfold Qle. simpl. lia.
  - unfold Qle. simpl. lia.
  - simpl in Hb. injection Hb as <- <- <- <-.
    exists 3%Z, 5%Z, 7%Z, 5%Z. auto.
Defined.

Lemma dict_get_reverse_lookup_witness :
  dict_get Demo.names (reverse_lookup Demo.names "car") = Ok "car".
Proof.
  apply dict_get_reverse_lookup.
  - refine (bool_decide_unpack _ _). vm_compute. exact I.
  - refine (bool_decide_unpack _ _). vm_compute. exact I.
Defined.

Lemma reverse_lookup_dict_get_witness :
  reverse_lookup Demo.names "bicycle" = 1%Z /\
  reverse_lookup Demo.names "truck" = 0%Z.
Proof.
  split.
  - apply (proj1 (reverse_lookup_dict_get Demo.names 1 "bicycle")).
    + refine (bool_decide_unpack _ _). vm_compute. exact I.
    + reflexivity.
  - apply (proj2 (reverse_lookup_dict_get Demo.names 0 "truck")).
    refine (bool_decide_unpack _ _). vm_compute. exact I.
Defined.

Lemma inference_returns_annotated_copy_witness :
  exists im0 w',
    Demo.inference 0 Demo.model_seeing Demo.names 2 Demo.world0
      = (Ok im0, w') /\
    im0 <> 0 /\
    heap w' !! 0 = Some frame_2x3 /\
    heap w' !! im0 = Some (Demo.draw_text frame_2x3 "FPS: 1.00").
Proof.
  destruct (inference_returns_annotated_copy
              Demo.update_tracks Demo.to_float_div255 Demo.half
              Nms.non_max_suppression Demo.scale_boxes Demo.colors
              Demo.draw_box_label Demo.draw_text Demo.format_2f
              0 Demo.model_seeing Demo.names 2%Z Demo.world0
              frame_2x3 (padded frame_2x3 4) Demo.candidates []
              (Nms.post_filter Demo.candidates (3 # 10) (45 # 100) 100) []
              Demo.detections2
              (lookup_singleton_eq 0 frame_2x3) eq_refl eq_refl eq_refl
              eq_refl eq_refl)
    as (im0 & w' & Hrun & Hne & _ & Himg & _ & Hplain).
  exists im0, w'. split; [exact Hrun|]. split; [exact Hne|].
  split; [exact Himg|]. apply Hplain.
  intros t Ht [Hs _]. vm_compute in Ht.
  apply elem_of_cons in Ht as [->|Ht]; [discriminate|].
  apply elem_of_cons in Ht as [->|Ht]; [discriminate|].
  now apply elem_of_nil in Ht.
Defined.

Lemma inference_rejected_frame_witness :
  Demo.inference 0 Demo.model_seeing Demo.names 2 (world_with frame_bgra)
    = (Raise ValueError, set_ticks 1 (world_with frame_bgra)).
Proof.
  destruct (inference_rejected_frame
              Demo.update_tracks Demo.to_float_div255 Demo.half
              Nms.non_max_suppression Demo.scale_boxes Demo.colors
              Demo.draw_box_label Demo.draw_text Demo.format_2f
              0 Demo.model_seeing Demo.names 2%Z (world_with frame_bgra)
              frame_bgra ValueError (lookup_singleton_eq 0 frame_bgra) eq_refl)
    as (Hrun & _ & _).
  exact Hrun.
Defined.

Lemma inference_unknown_class_witness :
  exists w',
    Demo.inference 0 Demo.model_seeing names_short 2 Demo.world0
      = (Raise KeyError, w') /\
    deepsort w' = DeepSort.empty_store /\
    trace w' = [EvForward] /\
    heap w' !! 0 = Some frame_2x3.
Proof.
  destruct (inference_unknown_class
              Demo.update_tracks Demo.to_float_div255 Demo.half
              Nms.non_max_suppression Demo.scale_boxes Demo.colors
              Demo.draw_box_label Demo.draw_text Demo.format_2f
              0 Demo.model_seeing names_short 2%Z Demo.world0
              frame_2x3 (padded frame_2x3 4) Demo.candidates []
              (Nms.post_filter Demo.candidates (3 # 10) (45 # 100) 100) []
              (Demo.row 20 20 30 40 (7 # 10) 2)
              (lookup_singleton_eq 0 frame_2x3) eq_refl eq_refl eq_refl)
    as (w' & Hrun & Hd & Ht & _ & Hh).
  - rewrite post_filter_candidates. right. left.
  - intros name Hin. apply list_elem_of_singleton in Hin. discriminate.
  - exists w'. auto.
Defined.

Lemma rescaled_box_within_half_pixel_witness :
  exists x1 y1 x2 y2 : Z,
    detection_of_row Demo.names (rescale_row halve (4, 4) (2, 3, 3) loose_row)
      = Ok ([x1; y1; x2 - x1; y2 - y1]%Z, 9 # 10, "person") /\
    (inject_Z x1 - (1 # 2) <= 3 / 2 /\ 3 / 2 <= inject_Z x1 + (1 # 2))%Q.
Proof.
  destruct (rescaled_box_within_half_pixel halve Demo.names (4, 4) (2, 3, 3)
              loose_row ([2; 2; 3; 3]%Z, 9 # 10, "person")
              (3 / 2)%Q (5 / 2)%Q ((21 # 2) / 2)%Q ((41 # 4) / 2)%Q
              eq_refl eq_refl)
    as (x1 & y1 & x2 & y2 & Hb & Hx1 & _).
  simpl in Hb. injection Hb as <- <- Hw Hh.
  exists 2%Z, 2%Z, 5%Z, 5%Z. split; [reflexivity|exact Hx1].
Defined.

Lemma run_loop_stops_at_quit_key_witness :
  (exists (w2 : World DeepSort.store) (b : ndarray),
     Demo.run_loop Demo.model_seeing Demo.names
       [Some frame_2x3; Some frame_4x8] [113%Z; 0%Z] Demo.world0 =
     (Ok tt, set_trace (trace w2 ++ [EvWrite b; EvImshow b]) w2)) /\
  Demo.run_loop Demo.model_seeing Demo.names
    [Some frame_2x3; Some frame_4x8; Some frame_2x3] [(-1)%Z; 113%Z; 0%Z]
    Demo.world0 =
  Demo.run_loop Demo.model_seeing Demo.names
    [Some frame_2x3; Some frame_4x8] [(-1)%Z; 113%Z] Demo.world0.
Proof.
  destruct (run_loop_stops_at_quit_key
              Demo.update_tracks Demo.to_float_div255 Demo.half
              Nms.non_max_suppression Demo.scale_boxes Demo.colors
              Demo.draw_box_label Demo.draw_text Demo.format_2f
              Demo.model_seeing Demo.names 113%Z eq_refl) as [Hhead Hlater].
  split.
  - destruct (inference_returns_annotated_copy
                Demo.update_tracks Demo.to_float_div255 Demo.half
                Nms.non_max_suppression Demo.scale_boxes Demo.colors
                Demo.draw_box_label Demo.draw_text Demo.format_2f
                (fresh (dom (heap Demo.world0))) Demo.model_seeing Demo.names
                2%Z
                (set_heap (<[fresh (dom (heap Demo.world0)) := frame_2x3]>
                             (heap Demo.world0)) Demo.world0)
                frame_2x3 (padded frame_2x3 4) Demo.candidates []
                (Nms.post_filter Demo.candidates (3 # 10) (45 # 100) 100) []
                Demo.detections2
                (lookup_insert_eq _ _ _) eq_refl eq_refl eq_refl
                eq_refl eq_refl)
      as (im0 & w2 & Hrun & _ & _ & _ & Hout & _).
    eexists w2, _.
    apply (Hhead frame_2x3 [Some frame_4x8] [0%Z] Demo.world0 w2 im0 _
             Hrun Hout).
  - exact (Hlater [frame_2x3] frame_4x8 [Some frame_2x3] [(-1)%Z] [0%Z]
             Demo.world0 eq_refl).
Defined.

Lemma run_keeps_earlier_arrays_witness :
  heap (snd (run Demo.update_tracks Demo.to_float_div255 Demo.half
               Nms.non_max_suppression Demo.scale_boxes Demo.colors
               Demo.draw_box_label Demo.draw_text Demo.format_2f
               Demo.model_seeing Demo.names true
               [Some frame_4x8; Some frame_2x3] [] Demo.world0)) !! 0
  = Some frame_2x3.
Proof.
  apply run_keeps_earlier_arrays. apply lookup_singleton_eq.
Defined.
